(** * Customers: duplicate checking, create, update, removal and merge

    A shallow embedding of the [Customer] model class (static methods
    [checkDuplication], [createCustomer], [updateCustomer], [addCompany],
    [updateCompanies], [removeCustomer], [mergeCustomers]) over an explicit
    model of the [customers] collection.

    - The collection is the list of its documents in insertion order;
      [find] filters it, [findOne] takes the first match, [remove] drops
      every match, [create] appends.
    - An [async] method is a computation in the monad [M]: it threads the
      world (collection + trace of effects) and may throw.  What was written
      before a throw stays written.
    - The sibling models (ActivityLogs, Conversations, EngageMessages,
      InternalNotes, Fields, Companies), the clock and the identifier
      generator of the store are not part of this class: they are taken as an
      [Environment] of oracles, and every theorem holds for all of them.  A
      call into a sibling model is recorded in the trace and may throw; it
      works on the sibling's own collection and leaves [customers] alone. *)

From stdpp Require Import base option list strings numbers infinite.

Set Default Proof Using "Type".
Set Warnings "-clear-no-such-hyp".


(** ** Data model *)

Definition Date := Z.

(** Nested objects whose shape this class never inspects. *)
Definition JsObject := list (string * string).

Module Twitter.
Record ITwitterData := { id : Z }.
End Twitter.

Module Facebook.
Record IFacebookData := { id : string }.
End Facebook.

Module Users.
Record IUserDocument := { _id : string }.
End Users.

Module Company.
Record ICompanyDocument := { _id : string; name : string; website : string }.
End Company.

(** [ICustomerFieldsInput]: every field is optional. *)
Module CF.
Record ICustomerFieldsInput := {
  twitterData : option Twitter.ITwitterData;
  facebookData : option Facebook.IFacebookData;
  primaryEmail : option string;
  primaryPhone : option string;
}.
End CF.
Export CF(ICustomerFieldsInput).

(** [ICreateCustomerInput]: every field is optional ([None] = absent). *)
Record ICreateCustomerInput := {
  firstName : option string;
  lastName : option string;
  primaryEmail : option string;
  emails : option (list string);
  primaryPhone : option string;
  phones : option (list string);
  ownerId : option string;
  position : option string;
  department : option string;
  leadStatus : option string;
  lifecycleState : option string;
  hasAuthority : option string;
  description : option string;
  doNotDisturb : option string;
  links : option JsObject;
  isUser : option bool;
  integrationId : option string;
  tagIds : option (list string);
  companyIds : option (list string);
  customFieldsData : option JsObject;
  messengerData : option JsObject;
  twitterData : option Twitter.ITwitterData;
  facebookData : option Facebook.IFacebookData;
  location : option JsObject;
  visitorContactInfo : option JsObject;
  urlVisits : option JsObject;
}.

(** A stored document: the customer attributes ([data]) together with the
    identifier and the two timestamps the store keeps next to them. *)
Record ICustomerDocument := {
  _id : string;
  createdAt : option Date;
  modifiedAt : option Date;
  data : ICreateCustomerInput;
}.

(** A document passed where [ICustomerFieldsInput] is expected is read
    through its four identity fields only. *)
Definition as_customerFields (doc : ICreateCustomerInput) : ICustomerFieldsInput :=
  {| CF.twitterData := twitterData doc;
     CF.facebookData := facebookData doc;
     CF.primaryEmail := primaryEmail doc;
     CF.primaryPhone := primaryPhone doc |}.

(** The document with no field set: [{}]. *)
Definition empty_doc : ICreateCustomerInput :=
  {| firstName := None; lastName := None; primaryEmail := None; emails := None;
     primaryPhone := None; phones := None; ownerId := None; position := None;
     department := None; leadStatus := None; lifecycleState := None;
     hasAuthority := None; description := None; doNotDisturb := None;
     links := None; isUser := None; integrationId := None; tagIds := None;
     companyIds := None; customFieldsData := None; messengerData := None;
     twitterData := None; facebookData := None; location := None;
     visitorContactInfo := None; urlVisits := None |}.

(** [{ primaryEmail: e }] *)
Definition only_primaryEmail (e : string) : ICreateCustomerInput :=
  {| firstName := None; lastName := None; primaryEmail := Some e;
     emails := None; primaryPhone := None; phones := None; ownerId := None;
     position := None; department := None; leadStatus := None;
     lifecycleState := None; hasAuthority := None; description := None;
     doNotDisturb := None; links := None; isUser := None;
     integrationId := None; tagIds := None; companyIds := None;
     customFieldsData := None; messengerData := None; twitterData := None;
     facebookData := None; location := None; visitorContactInfo := None;
     urlVisits := None |}.

(** ** Object spread and assignment on [ICreateCustomerInput] *)

(** [doc.ownerId = v] *)
Definition set_ownerId (v : option string) (doc : ICreateCustomerInput)
    : ICreateCustomerInput :=
  {| firstName := firstName doc; lastName := lastName doc;
     primaryEmail := primaryEmail doc; emails := emails doc;
     primaryPhone := primaryPhone doc; phones := phones doc; ownerId := v;
     position := position doc; department := department doc;
     leadStatus := leadStatus doc; lifecycleState := lifecycleState doc;
     hasAuthority := hasAuthority doc; description := description doc;
     doNotDisturb := doNotDisturb doc; links := links doc;
     isUser := isUser doc; integrationId := integrationId doc;
     tagIds := tagIds doc; companyIds := companyIds doc;
     customFieldsData := customFieldsData doc;
     messengerData := messengerData doc; twitterData := twitterData doc;
     facebookData := facebookData doc; location := location doc;
     visitorContactInfo := visitorContactInfo doc;
     urlVisits := urlVisits doc |}.

(** [doc.customFieldsData = v] *)
Definition set_customFieldsData (v : option JsObject) (doc : ICreateCustomerInput)
    : ICreateCustomerInput :=
  {| firstName := firstName doc; lastName := lastName doc;
     primaryEmail := primaryEmail doc; emails := emails doc;
     primaryPhone := primaryPhone doc; phones := phones doc;
     ownerId := ownerId doc; position := position doc;
     department := department doc; leadStatus := leadStatus doc;
     lifecycleState := lifecycleState doc; hasAuthority := hasAuthority doc;
     description := description doc; doNotDisturb := doNotDisturb doc;
     links := links doc; isUser := isUser doc;
     integrationId := integrationId doc; tagIds := tagIds doc;
     companyIds := companyIds doc; customFieldsData := v;
     messengerData := messengerData doc; twitterData := twitterData doc;
     facebookData := facebookData doc; location := location doc;
     visitorContactInfo := visitorContactInfo doc;
     urlVisits := urlVisits doc |}.

(** [doc.integrationId = v] *)
Definition set_integrationId (v : option string) (doc : ICreateCustomerInput)
    : ICreateCustomerInput :=
  {| firstName := firstName doc; lastName := lastName doc;
     primaryEmail := primaryEmail doc; emails := emails doc;
     primaryPhone := primaryPhone doc; phones := phones doc;
     ownerId := ownerId doc; position := position doc;
     department := department doc; leadStatus := leadStatus doc;
     lifecycleState := lifecycleState doc; hasAuthority := hasAuthority doc;
     description := description doc; doNotDisturb := doNotDisturb doc;
     links := links doc; isUser := isUser doc; integrationId := v;
     tagIds := tagIds doc; companyIds := companyIds doc;
     customFieldsData := customFieldsData doc;
     messengerData := messengerData doc; twitterData := twitterData doc;
     facebookData := facebookData doc; location := location doc;
     visitorContactInfo := visitorContactInfo doc;
     urlVisits := urlVisits doc |}.

(** [{ ...doc, tagIds, companyIds, emails, phones }] *)
Definition with_merged (doc : ICreateCustomerInput)
    (tagIds' companyIds' emails' phones' : list string) : ICreateCustomerInput :=
  {| firstName := firstName doc; lastName := lastName doc;
     primaryEmail := primaryEmail doc; emails := Some emails';
     primaryPhone := primaryPhone doc; phones := Some phones';
     ownerId := ownerId doc; position := position doc;
     department := department doc; leadStatus := leadStatus doc;
     lifecycleState := lifecycleState doc; hasAuthority := hasAuthority doc;
     description := description doc; doNotDisturb := doNotDisturb doc;
     links := links doc; isUser := isUser doc;
     integrationId := integrationId doc; tagIds := Some tagIds';
     companyIds := Some companyIds';
     customFieldsData := customFieldsData doc;
     messengerData := messengerData doc; twitterData := twitterData doc;
     facebookData := facebookData doc; location := location doc;
     visitorContactInfo := visitorContactInfo doc;
     urlVisits := urlVisits doc |}.

(** [doc.companyIds = v] on a stored document's attributes. *)
Definition set_companyIds (v : list string) (doc : ICreateCustomerInput)
    : ICreateCustomerInput :=
  {| firstName := firstName doc; lastName := lastName doc;
     primaryEmail := primaryEmail doc; emails := emails doc;
     primaryPhone := primaryPhone doc; phones := phones doc;
     ownerId := ownerId doc; position := position doc;
     department := department doc; leadStatus := leadStatus doc;
     lifecycleState := lifecycleState doc; hasAuthority := hasAuthority doc;
     description := description doc; doNotDisturb := doNotDisturb doc;
     links := links doc; isUser := isUser doc;
     integrationId := integrationId doc; tagIds := tagIds doc;
     companyIds := Some v; customFieldsData := customFieldsData doc;
     messengerData := messengerData doc; twitterData := twitterData doc;
     facebookData := facebookData doc; location := location doc;
     visitorContactInfo := visitorContactInfo doc;
     urlVisits := urlVisits doc |}.

(** [{ $set: doc }]: a field present in [doc] replaces the stored one, an
    absent one leaves it. *)
Definition dollar_set (doc old : ICreateCustomerInput) : ICreateCustomerInput :=
  {| firstName := from_option Some (firstName old) (firstName doc);
     lastName := from_option Some (lastName old) (lastName doc);
     primaryEmail := from_option Some (primaryEmail old) (primaryEmail doc);
     emails := from_option Some (emails old) (emails doc);
     primaryPhone := from_option Some (primaryPhone old) (primaryPhone doc);
     phones := from_option Some (phones old) (phones doc);
     ownerId := from_option Some (ownerId old) (ownerId doc);
     position := from_option Some (position old) (position doc);
     department := from_option Some (department old) (department doc);
     leadStatus := from_option Some (leadStatus old) (leadStatus doc);
     lifecycleState := from_option Some (lifecycleState old) (lifecycleState doc);
     hasAuthority := from_option Some (hasAuthority old) (hasAuthority doc);
     description := from_option Some (description old) (description doc);
     doNotDisturb := from_option Some (doNotDisturb old) (doNotDisturb doc);
     links := from_option Some (links old) (links doc);
     isUser := from_option Some (isUser old) (isUser doc);
     integrationId := from_option Some (integrationId old) (integrationId doc);
     tagIds := from_option Some (tagIds old) (tagIds doc);
     companyIds := from_option Some (companyIds old) (companyIds doc);
     customFieldsData := from_option Some (customFieldsData old) (customFieldsData doc);
     messengerData := from_option Some (messengerData old) (messengerData doc);
     twitterData := from_option Some (twitterData old) (twitterData doc);
     facebookData := from_option Some (facebookData old) (facebookData doc);
     location := from_option Some (location old) (location doc);
     visitorContactInfo := from_option Some (visitorContactInfo old) (visitorContactInfo doc);
     urlVisits := from_option Some (urlVisits old) (urlVisits doc) |}.

(** ** JavaScript truthiness of the values tested by the class *)

(** [if (s)] for an optional string: absent and [""] are falsy. *)
Definition truthy (s : option string) : option string :=
  match s with
  | Some v => if decide (v = "") then None else Some v
  | None => None
  end.

(** [idsToExclude?: string[] | string]. *)
Inductive IdsToExclude :=
| IdList (ids : list string)
| IdOne (id : string).

(** ** Queries on the collection *)

Inductive IdSelector :=
| Nin (ids : list string)      (* { $nin: ids } *)
| Ne (id : string).            (* { $ne: id }   *)

Inductive Cond :=
| TwitterDataId (v : Z)            (* "twitterData.id": v     *)
| FacebookDataId (v : string)      (* "facebookData.id": v    *)
| PrimaryEmailIs (v : string)      (* primaryEmail: v         *)
| EmailsIn (vs : list string)      (* emails: { $in: vs }     *)
| PrimaryPhoneIs (v : string)      (* primaryPhone: v         *)
| PhonesIn (vs : list string).     (* phones: { $in: vs }     *)

Record Query := { q_id : option IdSelector; q_cond : Cond }.

Definition matches_id (sel : option IdSelector) (d : ICustomerDocument) : bool :=
  match sel with
  | None => true
  | Some (Nin ids) => bool_decide (_id d ∉ ids)
  | Some (Ne id) => bool_decide (_id d ≠ id)
  end.

(** An array field matches [{ $in: vs }] when one of its elements is in [vs]. *)
Definition array_in (field : option (list string)) (vs : list string) : bool :=
  match field with
  | Some l => bool_decide (Exists (λ x, x ∈ vs) l)
  | None => false
  end.

Definition matches_cond (c : Cond) (d : ICustomerDocument) : bool :=
  match c with
  | TwitterDataId v =>
      match twitterData (data d) with
      | Some t => bool_decide (Twitter.id t = v)
      | None => false
      end
  | FacebookDataId v =>
      match facebookData (data d) with
      | Some f => bool_decide (Facebook.id f = v)
      | None => false
      end
  | PrimaryEmailIs v => bool_decide (primaryEmail (data d) = Some v)
  | EmailsIn vs => array_in (emails (data d)) vs
  | PrimaryPhoneIs v => bool_decide (primaryPhone (data d) = Some v)
  | PhonesIn vs => array_in (phones (data d)) vs
  end.

Definition matches (q : Query) (d : ICustomerDocument) : bool :=
  matches_id (q_id q) d && matches_cond (q_cond q) d.

(** ** Effects *)

(** Calls into the sibling models. *)
Inductive Call :=
| ActivityLogs_removeCustomerActivityLog (customerId : string)
| Conversations_removeCustomerConversations (customerId : string)
| EngageMessages_removeCustomerEngages (customerId : string)
| InternalNotes_removeCustomerInternalNotes (customerId : string)
| ActivityLogs_changeCustomer (newCustomerId : string) (customerIds : list string)
| Conversations_changeCustomer (newCustomerId : string) (customerIds : list string)
| EngageMessages_changeCustomer (newCustomerId : string) (customerIds : list string)
| InternalNotes_changeCustomer (newCustomerId : string) (customerIds : list string)
| Fields_cleanMulti (payload : JsObject)
| Companies_createCompany (name website : string).

(** Everything a method does to the outside, in the order it does it. *)
Inductive Event :=
| DbFind (q : Query)
| DbFindOne (id : string)
| DbCreate (d : ICustomerDocument)
| DbUpdate (id : string) (doc : ICreateCustomerInput) (modifiedAt : Date)
| DbSetCompanyIds (id : string) (companyIds : list string)
| DbAddToSetCompanyIds (id : string) (companyId : string)
| DbRemove (id : string)
| Collaborator (c : Call)
| NewDate.

Record World := {
  customers : list ICustomerDocument;
  trace : list Event;
}.

Inductive Exception :=
| Error (message : string)              (* [throw new Error(message)] in this class *)
| MongoError (message : string)         (* raised by the store *)
| CollaboratorError (message : string). (* raised inside a sibling model *)

Inductive result (A : Type) :=
| Ok (a : A)
| Thrown (e : Exception).
Arguments Ok {A} a.
Arguments Thrown {A} e.

Definition M (A : Type) : Type := World → result A * World.

Definition ret {A} (a : A) : M A := λ w, (Ok a, w).
Definition throw {A} (e : Exception) : M A := λ w, (Thrown e, w).
Definition bind {A B} (m : M A) (k : A → M B) : M B :=
  λ w, match m w with
       | (Ok a, w') => k a w'
       | (Thrown e, w') => (Thrown e, w')
       end.

(** [x ← m; k] awaits [m] and continues with [k]; [m;; k] drops the value. *)
Global Instance M_bind : MBind M := λ A B k m, bind m k.
Global Instance M_ret : MRet M := @ret.

(** The world after one more effect. *)
Definition logged (ev : Event) (w : World) : World :=
  {| customers := customers w; trace := trace w ++ [ev] |}.

Definition log (ev : Event) : M unit := λ w, (Ok tt, logged ev w).

Definition get_world : M World := λ w, (Ok w, w).

Definition set_customers (cs : list ICustomerDocument) : M unit :=
  λ w, (Ok tt, {| customers := cs; trace := trace w |}).

(** What the class does not own. *)
Record Environment := {
  (** the identifier the store gives to the next created document *)
  newId : World → string;
  (** the value of [new Date()] *)
  now : World → Date;
  (** [Some msg] when the call into a sibling model throws *)
  collaborator_throws : World → Call → option string;
  (** the value [Fields.cleanMulti] resolves to when it does not throw *)
  cleanMulti_value : World → JsObject → JsObject;
  (** the value [Companies.createCompany] resolves to when it does not throw *)
  createCompany_value : World → string → string → Company.ICompanyDocument;
}.

(** ** Array helpers *)

(** [Array.from(new Set(xs))]: a [Set] keeps the first occurrence of each
    value, in insertion order. *)
Fixpoint Set_add_all (seen xs : list string) : list string :=
  match xs with
  | [] => seen
  | x :: xs' => Set_add_all (if decide (x ∈ seen) then seen else seen ++ [x]) xs'
  end.

Definition Array_from_Set (xs : list string) : list string := Set_add_all [] xs.

(** [{ $addToSet: { companyIds: v } }] on one stored array. *)
Definition addToSet (v : string) (field : option (list string)) : list string :=
  match field with
  | Some l => if decide (v ∈ l) then l else l ++ [v]
  | None => [v]
  end.

(** An update without [multi] changes the first document with the identifier. *)
Fixpoint update_first (id : string) (f : ICustomerDocument → ICustomerDocument)
    (cs : list ICustomerDocument) : list ICustomerDocument :=
  match cs with
  | [] => []
  | d :: cs' => if decide (_id d = id) then f d :: cs' else d :: update_first id f cs'
  end.

(** The document [findOne({ _id })] resolves to: the first one with that
    identifier, [None] for JavaScript's [null]. *)
Definition lookup_customer (id : string) (cs : list ICustomerDocument)
    : option ICustomerDocument :=
  snd <$> list_find (λ d, _id d = id) cs.

(** The variables [mergeCustomers] carries through its loop; [customerFields]
    is the caller's object, whose [integrationId] the loop assigns. *)
Record MergeState := {
  m_customerFields : ICreateCustomerInput;
  m_tagIds : list string;
  m_companyIds : list string;
  m_emails : list string;
  m_phones : list string;
}.

(** [customerObj.field || []] *)
Definition array_of (field : ICreateCustomerInput → option (list string))
    (customerObj : ICustomerDocument) : list string :=
  default [] (field (data customerObj)).

(** [let xs = []; if (v) xs.push(v)] *)
Definition seed (v : option string) : list string :=
  from_option (λ x, [x]) [] (truthy v).

(** What one found record adds to the loop variables of [mergeCustomers]:
    its [integrationId] overwrites the one of [customerFields], its arrays
    (or [[]] when it has none) are appended. *)
Definition absorb (customerObj : ICustomerDocument) (st : MergeState) : MergeState :=
  {| m_customerFields :=
       set_integrationId (integrationId (data customerObj)) (m_customerFields st);
     m_tagIds := m_tagIds st ++ array_of tagIds customerObj;
     m_companyIds := m_companyIds st ++ array_of companyIds customerObj;
     m_emails := m_emails st ++ array_of emails customerObj;
     m_phones := m_phones st ++ array_of phones customerObj |}.

Section Customer.
Context (env : Environment).

(** *** The [Customers] collection *)

(** [Customers.find(q)] *)
Definition Customers_find (q : Query) : M (list ICustomerDocument) :=
  log (DbFind q);;
  w ← get_world;
  ret (filter (λ d, matches q d) (customers w)).

(** [Customers.findOne({ _id })] *)
Definition Customers_findOne (id : string) : M (option ICustomerDocument) :=
  log (DbFindOne id);;
  w ← get_world;
  ret (lookup_customer id (customers w)).

(** [Customers.remove({ _id })] *)
Definition Customers_remove (id : string) : M unit :=
  log (DbRemove id);;
  w ← get_world;
  set_customers (filter (λ d, _id d ≠ id) (customers w)).

(** [Customers.create(d)]: the store picks the identifier; its unique index
    on [_id] rejects one that is already taken. *)
Definition Customers_create (createdAt modifiedAt : Date)
    (doc : ICreateCustomerInput) : M ICustomerDocument :=
  w ← get_world;
  let d := {| _id := newId env w; createdAt := Some createdAt;
              modifiedAt := Some modifiedAt; data := doc |} in
  if bool_decide (_id d ∈ _id <$> customers w)
  then throw (MongoError "E11000 duplicate key error")
  else
    log (DbCreate d);;
    set_customers (customers w ++ [d]);;
    ret d.

(** [new Date()] *)
Definition new_Date : M Date :=
  w ← get_world;
  log NewDate;;
  ret (now env w).

(** A call into a sibling model that resolves to nothing. *)
Definition call (c : Call) : M unit :=
  w ← get_world;
  log (Collaborator c);;
  match collaborator_throws env w c with
  | Some msg => throw (CollaboratorError msg)
  | None => ret tt
  end.

(** *** checkDuplication *)

(** The [_id] part of the query: set only when [idsToExclude] is truthy
    (an array always is, a string when it is not empty). *)
Definition exclude_query (idsToExclude : option IdsToExclude) : option IdSelector :=
  match idsToExclude with
  | Some (IdList ids) => Some (Nin ids)
  | Some (IdOne id) => if decide (id = "") then None else Some (Ne id)
  | None => None
  end.

(** [previousEntry = await Customers.find(...);
     if (previousEntry.length > 0) throw new Error(message)] *)
Definition throw_if_found (query : option IdSelector) (c : Cond)
    (message : string) : M unit :=
  previousEntry ← Customers_find {| q_id := query; q_cond := c |};
  if bool_decide (0 < length previousEntry)%nat
  then throw (Error message)
  else ret tt.

Definition checkDuplication (customerFields : ICustomerFieldsInput)
    (idsToExclude : option IdsToExclude) : M unit :=
  let query := exclude_query idsToExclude in
  match CF.twitterData customerFields with
  | Some t => throw_if_found query (TwitterDataId (Twitter.id t)) "Duplicated twitter"
  | None => ret tt
  end;;
  match CF.facebookData customerFields with
  | Some f => throw_if_found query (FacebookDataId (Facebook.id f)) "Duplicated facebook"
  | None => ret tt
  end;;
  match truthy (CF.primaryEmail customerFields) with
  | Some primaryEmail =>
      throw_if_found query (PrimaryEmailIs primaryEmail) "Duplicated email";;
      throw_if_found query (EmailsIn [primaryEmail]) "Duplicated email"
  | None => ret tt
  end;;
  match truthy (CF.primaryPhone customerFields) with
  | Some primaryPhone =>
      throw_if_found query (PrimaryPhoneIs primaryPhone) "Duplicated phone";;
      throw_if_found query (PhonesIn [primaryPhone]) "Duplicated phone"
  | None => ret tt
  end.

(** [Customers.update({ _id }, { $set: { ...doc, modifiedAt } })] *)
Definition Customers_update (id : string) (doc : ICreateCustomerInput)
    (modifiedAt' : Date) : M unit :=
  log (DbUpdate id doc modifiedAt');;
  w ← get_world;
  set_customers
    (update_first id
       (λ d, {| _id := _id d; createdAt := createdAt d;
                modifiedAt := Some modifiedAt';
                data := dollar_set doc (data d) |})
       (customers w)).

(** [Customers.findByIdAndUpdate(_id, { $set: { companyIds } })] *)
Definition Customers_setCompanyIds (id : string) (companyIds' : list string)
    : M unit :=
  log (DbSetCompanyIds id companyIds');;
  w ← get_world;
  set_customers
    (update_first id
       (λ d, {| _id := _id d; createdAt := createdAt d;
                modifiedAt := modifiedAt d;
                data := set_companyIds companyIds' (data d) |})
       (customers w)).

(** [Customers.findByIdAndUpdate(_id, { $addToSet: { companyIds: v } })] *)
Definition Customers_addToSetCompanyIds (id : string) (v : string) : M unit :=
  log (DbAddToSetCompanyIds id v);;
  w ← get_world;
  set_customers
    (update_first id
       (λ d, {| _id := _id d; createdAt := createdAt d;
                modifiedAt := modifiedAt d;
                data := set_companyIds (addToSet v (companyIds (data d))) (data d) |})
       (customers w)).

(** [await Fields.cleanMulti(payload)] *)
Definition Fields_cleanMulti_call (payload : JsObject) : M JsObject :=
  w ← get_world;
  call (Fields_cleanMulti payload);;
  ret (cleanMulti_value env w payload).

(** [await Companies.createCompany({ name, website })] *)
Definition Companies_createCompany_call (name website : string)
    : M Company.ICompanyDocument :=
  w ← get_world;
  call (Companies_createCompany name website);;
  ret (createCompany_value env w name website).

(** *** createCustomer *)

Definition createCustomer (doc : ICreateCustomerInput)
    (user : option Users.IUserDocument) : M ICustomerDocument :=
  checkDuplication (as_customerFields doc) None;;
  let doc :=
    match truthy (ownerId doc), user with
    | None, Some u => set_ownerId (Some (Users._id u)) doc
    | _, _ => doc
    end in
  cleaned ← Fields_cleanMulti_call (default [] (customFieldsData doc));
  let doc := set_customFieldsData (Some cleaned) doc in
  createdAt' ← new_Date;
  modifiedAt' ← new_Date;
  Customers_create createdAt' modifiedAt' doc.

(** *** updateCustomer *)

Definition updateCustomer (id : string) (doc : ICreateCustomerInput)
    : M (option ICustomerDocument) :=
  checkDuplication (as_customerFields doc) (Some (IdOne id));;
  doc ← match customFieldsData doc with
        | Some payload =>
            cleaned ← Fields_cleanMulti_call payload;
            ret (set_customFieldsData (Some cleaned) doc)
        | None => ret doc
        end;
  modifiedAt' ← new_Date;
  Customers_update id doc modifiedAt';;
  Customers_findOne id.

(** *** addCompany, updateCompanies *)

Definition addCompany (id name website : string) : M Company.ICompanyDocument :=
  company ← Companies_createCompany_call name website;
  Customers_addToSetCompanyIds id (Company._id company);;
  ret company.

Definition updateCompanies (id : string) (companyIds' : list string)
    : M (option ICustomerDocument) :=
  Customers_setCompanyIds id companyIds';;
  Customers_findOne id.

(** *** removeCustomer *)

Definition removeCustomer (customerId : string) : M unit :=
  call (ActivityLogs_removeCustomerActivityLog customerId);;
  call (Conversations_removeCustomerConversations customerId);;
  call (EngageMessages_removeCustomerEngages customerId);;
  call (InternalNotes_removeCustomerInternalNotes customerId);;
  Customers_remove customerId.

(** *** mergeCustomers *)

(** One turn of [for (const customerId of customerIds)]. *)
Definition merge_step (customerId : string) (st : MergeState) : M MergeState :=
  customerObj ← Customers_findOne customerId;
  match customerObj with
  | Some obj =>
      let st' := absorb obj st in
      Customers_remove customerId;;
      ret st'
  | None => ret st
  end.

Fixpoint merge_loop (customerIds : list string) (st : MergeState) : M MergeState :=
  match customerIds with
  | [] => ret st
  | customerId :: rest =>
      st' ← merge_step customerId st;
      merge_loop rest st'
  end.

(** The accumulators before the loop: [emails] and [phones] start from the
    supplied primary email and phone when these are truthy. *)
Definition merge_init (customerFields : ICreateCustomerInput) : MergeState :=
  {| m_customerFields := customerFields;
     m_tagIds := [];
     m_companyIds := [];
     m_emails := seed (primaryEmail customerFields);
     m_phones := seed (primaryPhone customerFields) |}.

Definition mergeCustomers (customerIds : list string)
    (customerFields : ICreateCustomerInput) : M ICustomerDocument :=
  checkDuplication (as_customerFields customerFields) (Some (IdList customerIds));;
  st ← merge_loop customerIds (merge_init customerFields);
  customer ← createCustomer
    (with_merged (m_customerFields st)
       (Array_from_Set (m_tagIds st)) (Array_from_Set (m_companyIds st))
       (Array_from_Set (m_emails st)) (Array_from_Set (m_phones st)))
    None;
  call (ActivityLogs_changeCustomer (_id customer) customerIds);;
  call (Conversations_changeCustomer (_id customer) customerIds);;
  call (EngageMessages_changeCustomer (_id customer) customerIds);;
  call (InternalNotes_changeCustomer (_id customer) customerIds);;
  ret customer.

End Customer.

(** * What the duplication checker is meant to decide *)

(** The documents a check leaves out: those whose identifier is in the list,
    or is the single identifier given.  An empty string given as single
    identifier is falsy for [if (idsToExclude)] and leaves nothing out. *)
Definition excluded (idsToExclude : option IdsToExclude) (d : ICustomerDocument) : Prop :=
  match idsToExclude with
  | Some (IdList ids) => _id d ∈ ids
  | Some (IdOne id) => id ≠ "" ∧ _id d = id
  | None => False
  end.

Definition holds_twitter (v : Z) (d : ICustomerDocument) : Prop :=
  ∃ t, twitterData (data d) = Some t ∧ Twitter.id t = v.

Definition holds_facebook (v : string) (d : ICustomerDocument) : Prop :=
  ∃ f, facebookData (data d) = Some f ∧ Facebook.id f = v.

(** As primary email, or inside the secondary-email list. *)
Definition holds_email (v : string) (d : ICustomerDocument) : Prop :=
  primaryEmail (data d) = Some v ∨ ∃ l, emails (data d) = Some l ∧ v ∈ l.

(** As primary phone, or inside the secondary-phone list. *)
Definition holds_phone (v : string) (d : ICustomerDocument) : Prop :=
  primaryPhone (data d) = Some v ∨ ∃ l, phones (data d) = Some l ∧ v ∈ l.

(** Some stored, non-excluded document satisfies [P]. *)
Definition collides (P : ICustomerDocument → Prop)
    (idsToExclude : option IdsToExclude) (cs : list ICustomerDocument) : Prop :=
  ∃ d, d ∈ cs ∧ ¬ excluded idsToExclude d ∧ P d.

(** The four identity checks on a candidate; a primary email or phone is
    supplied when it is present and not the empty string. *)
Definition twitter_duplicated (f : ICustomerFieldsInput) ex cs : Prop :=
  ∃ t, CF.twitterData f = Some t ∧ collides (holds_twitter (Twitter.id t)) ex cs.

Definition facebook_duplicated (f : ICustomerFieldsInput) ex cs : Prop :=
  ∃ b, CF.facebookData f = Some b ∧ collides (holds_facebook (Facebook.id b)) ex cs.

Definition email_duplicated (f : ICustomerFieldsInput) ex cs : Prop :=
  ∃ e, truthy (CF.primaryEmail f) = Some e ∧ collides (holds_email e) ex cs.

Definition phone_duplicated (f : ICustomerFieldsInput) ex cs : Prop :=
  ∃ p, truthy (CF.primaryPhone f) = Some p ∧ collides (holds_phone p) ex cs.

(** A stored document holds one of the identity values a candidate supplies. *)
Definition shares_identity (doc : ICreateCustomerInput) (d : ICustomerDocument) : Prop :=
  (∃ t, twitterData doc = Some t ∧ holds_twitter (Twitter.id t) d)
  ∨ (∃ b, facebookData doc = Some b ∧ holds_facebook (Facebook.id b) d)
  ∨ (∃ e, truthy (primaryEmail doc) = Some e ∧ holds_email e d)
  ∨ (∃ p, truthy (primaryPhone doc) = Some p ∧ holds_phone p d).

(** A trace extension made of reads of the collection only. *)
Definition only_finds (evs : list Event) : Prop :=
  Forall (λ ev, ∃ q, ev = DbFind q) evs.

(** Whether a query has an answer in a collection. *)
Definition answered (q : Query) (cs : list ICustomerDocument) : bool :=
  bool_decide (0 < length (filter (λ d, matches q d) cs))%nat.

(** * The merge loop read as a fold over the collection *)

(** Loop variables and collection after the loop. *)
Fixpoint merge_fold (customerIds : list string) (st : MergeState)
    (cs : list ICustomerDocument) : MergeState * list ICustomerDocument :=
  match customerIds with
  | [] => (st, cs)
  | customerId :: rest =>
      match lookup_customer customerId cs with
      | Some obj =>
          merge_fold rest (absorb obj st) (filter (λ d, _id d ≠ customerId) cs)
      | None => merge_fold rest st cs
      end
  end.

(** Effects of the loop. *)
Fixpoint merge_events (customerIds : list string) (cs : list ICustomerDocument)
    : list Event :=
  match customerIds with
  | [] => []
  | customerId :: rest =>
      match lookup_customer customerId cs with
      | Some _ =>
          DbFindOne customerId :: DbRemove customerId
            :: merge_events rest (filter (λ d, _id d ≠ customerId) cs)
      | None => DbFindOne customerId :: merge_events rest cs
      end
  end.

(** * Assumptions on the environment, where a theorem needs one *)

(** The store never issues an identifier that a stored document has. *)
Definition issues_unused_ids (env : Environment) : Prop :=
  ∀ w, newId env w ∉ _id <$> customers w.

(** No call into a sibling model throws. *)
Definition collaborators_succeed (env : Environment) : Prop :=
  ∀ w c, collaborator_throws env w c = None.

(** * Concrete environments and worlds for the examples *)

Module Demo.

(** Identifiers are the first unused numerals, the clock counts the effects
    so far, the sibling models succeed, [cleanMulti] returns its argument. *)
Definition env : Environment :=
  {| newId := λ w, fresh (_id <$> customers w);
     now := λ w, Z.of_nat (length (trace w));
     collaborator_throws := λ _ _, None;
     cleanMulti_value := λ _ payload, payload;
     createCompany_value := λ _ name website,
       {| Company._id := "company-1"; Company.name := name;
          Company.website := website |} |}.

(** The same, but [Conversations.removeCustomerConversations] throws. *)
Definition env_conversations_down : Environment :=
  {| newId := newId env;
     now := now env;
     collaborator_throws := λ _ c,
       match c with
       | Conversations_removeCustomerConversations _ => Some "conversations down"
       | _ => None
       end;
     cleanMulti_value := cleanMulti_value env;
     createCompany_value := createCompany_value env |}.

(** A: tags {t1}, primary email a@x.io, from integration int-a. *)
Definition A : ICustomerDocument :=
  {| _id := "A"; createdAt := Some 0%Z; modifiedAt := Some 0%Z;
     data :=
       {| firstName := Some "Ann"; lastName := None;
          primaryEmail := Some "a@x.io"; emails := Some ["a2@x.io"];
          primaryPhone := None; phones := Some ["111"]; ownerId := None;
          position := None; department := None; leadStatus := None;
          lifecycleState := None; hasAuthority := None;
          description := None; doNotDisturb := None; links := None;
          isUser := None; integrationId := Some "int-a";
          tagIds := Some ["t1"]; companyIds := Some ["c1"];
          customFieldsData := None; messengerData := None;
          twitterData := Some {| Twitter.id := 7 |}; facebookData := None;
          location := None; visitorContactInfo := None; urlVisits := None |} |}.

(** B: tags {t1, t2}, from integration int-b; its secondary emails contain
    A's primary email. *)
Definition B : ICustomerDocument :=
  {| _id := "B"; createdAt := Some 0%Z; modifiedAt := Some 0%Z;
     data :=
       {| firstName := Some "Bob"; lastName := None;
          primaryEmail := Some "b@x.io";
          emails := Some ["a@x.io"; "b2@x.io"]; primaryPhone := Some "222";
          phones := None; ownerId := None; position := None;
          department := None; leadStatus := None; lifecycleState := None;
          hasAuthority := None; description := None; doNotDisturb := None;
          links := None; isUser := None; integrationId := Some "int-b";
          tagIds := Some ["t1"; "t2"]; companyIds := Some ["c1"; "c2"];
          customFieldsData := None; messengerData := None;
          twitterData := None;
          facebookData := Some {| Facebook.id := "fb-b" |};
          location := None; visitorContactInfo := None; urlVisits := None |} |}.

Definition world : World := {| customers := [A; B]; trace := [] |}.

Definition empty_world : World := {| customers := []; trace := [] |}.

(** Two candidates for [createCustomer]: the second lists the primary email
    of the first among its secondary emails. *)
Definition ann : ICreateCustomerInput :=
  {| firstName := Some "Ann"; lastName := None;
     primaryEmail := Some "a@x.io"; emails := None; primaryPhone := None;
     phones := None; ownerId := None; position := None; department := None;
     leadStatus := None; lifecycleState := None; hasAuthority := None;
     description := None; doNotDisturb := None; links := None;
     isUser := None; integrationId := None; tagIds := None;
     companyIds := None; customFieldsData := None; messengerData := None;
     twitterData := None; facebookData := None; location := None;
     visitorContactInfo := None; urlVisits := None |}.

Definition bob : ICreateCustomerInput :=
  {| firstName := Some "Bob"; lastName := None;
     primaryEmail := Some "b@x.io"; emails := Some ["a@x.io"];
     primaryPhone := None; phones := None; ownerId := None;
     position := None; department := None; leadStatus := None;
     lifecycleState := None; hasAuthority := None; description := None;
     doNotDisturb := None; links := None; isUser := None;
     integrationId := None; tagIds := None; companyIds := None;
     customFieldsData := None; messengerData := None; twitterData := None;
     facebookData := None; location := None; visitorContactInfo := None;
     urlVisits := None |}.

Definition user : Users.IUserDocument := {| Users._id := "user-1" |}.

(** A candidate that collides with A on twitter and with B on facebook,
    primary email and primary phone. *)
Definition clash : ICustomerFieldsInput :=
  {| CF.twitterData := Some {| Twitter.id := 7 |};
     CF.facebookData := Some {| Facebook.id := "fb-b" |};
     CF.primaryEmail := Some "b@x.io";
     CF.primaryPhone := Some "222" |}.

End Demo.

(** * Messenger activity *)

(** The values [markCustomerAsActive] and [markCustomerAsNotActive] write. *)
Inductive JsValue :=
| JsBool (b : bool)
| JsDate (d : Date).

(** [doc.messengerData = v] *)
Definition set_messengerData (v : JsObject) (doc : ICreateCustomerInput)
    : ICreateCustomerInput :=
  {| firstName := firstName doc; lastName := lastName doc;
     primaryEmail := primaryEmail doc; emails := emails doc;
     primaryPhone := primaryPhone doc; phones := phones doc;
     ownerId := ownerId doc; position := position doc;
     department := department doc; leadStatus := leadStatus doc;
     lifecycleState := lifecycleState doc; hasAuthority := hasAuthority doc;
     description := description doc; doNotDisturb := doNotDisturb doc;
     links := links doc; isUser := isUser doc;
     integrationId := integrationId doc; tagIds := tagIds doc;
     companyIds := companyIds doc; customFieldsData := customFieldsData doc;
     messengerData := Some v; twitterData := twitterData doc;
     facebookData := facebookData doc; location := location doc;
     visitorContactInfo := visitorContactInfo doc;
     urlVisits := urlVisits doc |}.

(** These two methods call no sibling model and throw nothing of their own:
    they are given as functions from the collection to the new collection and
    the document the final [findOne] resolves to.  How a [$set] on the path
    ["messengerData.<key>"] acts on the nested object is left to [set_path]
    (the shape of [IMessengerData] is declared elsewhere). *)
Section Messenger.
Context (set_path : string → JsValue → option JsObject → JsObject).

(** [{ $set: { "messengerData.<key>": v } }] on one document. *)
Definition set_messenger_path (key : string) (v : JsValue)
    (d : ICustomerDocument) : ICustomerDocument :=
  {| _id := _id d; createdAt := createdAt d; modifiedAt := modifiedAt d;
     data := set_messengerData (set_path key v (messengerData (data d))) (data d) |}.

Definition markCustomerAsActive (customerId : string)
    (cs : list ICustomerDocument)
    : list ICustomerDocument * option ICustomerDocument :=
  let cs' := update_first customerId
               (set_messenger_path "isActive" (JsBool true)) cs in
  (cs', lookup_customer customerId cs').

(** [now] is the value of the [new Date()] in the update. *)
Definition markCustomerAsNotActive (now : Date) (id : string)
    (cs : list ICustomerDocument)
    : list ICustomerDocument * option ICustomerDocument :=
  let cs' := update_first id
               (λ d, set_messenger_path "lastSeenAt" (JsDate now)
                       (set_messenger_path "isActive" (JsBool false) d)) cs in
  (cs', lookup_customer id cs').

End Messenger.

(** * The unique index on [_id] *)

Definition unique_ids (cs : list ICustomerDocument) : Prop :=
  NoDup (_id <$> cs).

(** * Environments with a sibling model down *)

Module Outage.


(** [Fields.cleanMulti] throws when it is given the empty object, and only
    then; everything else is as in [Demo.env]. *)
Definition fields_down_on_empty : Environment :=
  {| newId := newId Demo.env;
     now := now Demo.env;
     collaborator_throws := λ _ c,
       match c with
       | Fields_cleanMulti [] => Some "nothing to clean"
       | _ => None
       end;
     cleanMulti_value := cleanMulti_value Demo.env;
     createCompany_value := createCompany_value Demo.env |}.

(** [Companies.createCompany] throws, everything else is as in [Demo.env]. *)
Definition companies_down : Environment :=
  {| newId := newId Demo.env;
     now := now Demo.env;
     collaborator_throws := λ _ c,
       match c with
       | Companies_createCompany _ _ => Some "companies down"
       | _ => None
       end;
     cleanMulti_value := cleanMulti_value Demo.env;
     createCompany_value := createCompany_value Demo.env |}.

(** A nested object as an association list: the path's key is rewritten. *)
Definition set_path (key : string) (v : JsValue) (o : option JsObject) : JsObject :=
  (key, match v with
        | JsBool true => "true"
        | JsBool false => "false"
        | JsDate _ => "date"
        end) :: filter (λ kv, kv.1 ≠ key) (default [] o).

(** [{ firstName: v }] *)
Definition only_firstName (v : string) : ICreateCustomerInput :=
  {| firstName := Some v; lastName := lastName empty_doc;
     primaryEmail := primaryEmail empty_doc; emails := emails empty_doc;
     primaryPhone := primaryPhone empty_doc; phones := phones empty_doc;
     ownerId := ownerId empty_doc; position := position empty_doc;
     department := department empty_doc; leadStatus := leadStatus empty_doc;
     lifecycleState := lifecycleState empty_doc;
     hasAuthority := hasAuthority empty_doc;
     description := description empty_doc;
     doNotDisturb := doNotDisturb empty_doc; links := links empty_doc;
     isUser := isUser empty_doc; integrationId := integrationId empty_doc;
     tagIds := tagIds empty_doc; companyIds := companyIds empty_doc;
     customFieldsData := customFieldsData empty_doc;
     messengerData := messengerData empty_doc;
     twitterData := twitterData empty_doc;
     facebookData := facebookData empty_doc; location := location empty_doc;
     visitorContactInfo := visitorContactInfo empty_doc;
     urlVisits := urlVisits empty_doc |}.

End Outage.

(** * The checker as an ordered plan of queries *)

(** The queries the checker plans for a candidate, in order, each with the
    message thrown when it is answered: twitter identifier, facebook
    identifier, primary email among the primary emails, primary email among
    the secondary emails, primary phone among the primary phones, primary
    phone among the secondary phones.  A check is planned only when its value
    is supplied (an email or a phone: present and not the empty string). *)
Definition planned_checks (f : ICustomerFieldsInput)
    (idsToExclude : option IdsToExclude) : list (Query * string) :=
  let query := exclude_query idsToExclude in
  from_option
    (λ t, [({| q_id := query; q_cond := TwitterDataId (Twitter.id t) |},
            "Duplicated twitter")])
    [] (CF.twitterData f)
  ++ from_option
       (λ b, [({| q_id := query; q_cond := FacebookDataId (Facebook.id b) |},
               "Duplicated facebook")])
       [] (CF.facebookData f)
  ++ from_option
       (λ e, [({| q_id := query; q_cond := PrimaryEmailIs e |}, "Duplicated email");
              ({| q_id := query; q_cond := EmailsIn [e] |}, "Duplicated email")])
       [] (truthy (CF.primaryEmail f))
  ++ from_option
       (λ p, [({| q_id := query; q_cond := PrimaryPhoneIs p |}, "Duplicated phone");
              ({| q_id := query; q_cond := PhonesIn [p] |}, "Duplicated phone")])
       [] (truthy (CF.primaryPhone f)).

(** Running a plan: the queries are issued in order up to and including the
    first one that has an answer, whose message is thrown; with no answered
    query all are issued and nothing is thrown. *)
Fixpoint first_failure (plan : list (Query * string))
    (cs : list ICustomerDocument) : result unit * list Query :=
  match plan with
  | [] => (Ok tt, [])
  | (q, message) :: rest =>
      if answered q cs then (Thrown (Error message), [q])
      else (fst (first_failure rest cs), q :: snd (first_failure rest cs))
  end.

(** * Proofs *)

(** ** Running the primitives *)

Ltac run := unfold mbind, M_bind, mret, M_ret, bind, ret, throw, log, logged,
  get_world, set_customers; simpl.

Lemma filter_nonempty {A} (P : A → Prop) `{!∀ x, Decision (P x)} (l : list A) :
  (0 < length (filter P l))%nat ↔ ∃ x, x ∈ l ∧ P x.
Proof.
  split.
  - destruct (filter P l) as [|x l'] eqn:E; simpl; [lia|]. intros _.
    assert (x ∈ filter P l) as Hx by (rewrite E; left).
    apply list_elem_of_filter in Hx as [HP Hx]. eauto.
  - intros (x & Hx & HP).
    assert (x ∈ filter P l) as Hin by (apply list_elem_of_filter; done).
    destruct (filter P l); [by apply elem_of_nil in Hin | simpl; lia].
Qed.

Lemma answered_spec q cs :
  answered q cs = true ↔ ∃ d, d ∈ cs ∧ matches q d = true.
Proof.
  unfold answered. rewrite bool_decide_eq_true, filter_nonempty.
  split; intros (d & Hd & Hm); exists d; (split; [done|]).
  - by apply Is_true_true_1.
  - by apply Is_true_true_2.
Qed.

Section Run.
Context (env : Environment).

Lemma Customers_find_run q w :
  Customers_find q w
  = (Ok (filter (λ d, matches q d) (customers w)), logged (DbFind q) w).
Proof. reflexivity. Qed.

Lemma throw_if_found_run query c msg w :
  throw_if_found query c msg w
  = (if answered {| q_id := query; q_cond := c |} (customers w)
     then Thrown (Error msg) else Ok tt,
     logged (DbFind {| q_id := query; q_cond := c |}) w).
Proof.
  unfold throw_if_found, answered. run.
  by destruct (bool_decide _).
Qed.

Lemma Customers_findOne_run id w :
  Customers_findOne id w
  = (Ok (lookup_customer id (customers w)), logged (DbFindOne id) w).
Proof. reflexivity. Qed.

Lemma Customers_remove_run id w :
  Customers_remove id w
  = (Ok tt, {| customers := filter (λ d, _id d ≠ id) (customers w);
               trace := trace w ++ [DbRemove id] |}).
Proof. reflexivity. Qed.

Lemma call_run c w :
  call env c w
  = (match collaborator_throws env w c with
     | Some msg => Thrown (CollaboratorError msg)
     | None => Ok tt
     end, logged (Collaborator c) w).
Proof. unfold call. run. by destruct (collaborator_throws env w c). Qed.

End Run.

(** ** The duplication checker *)

Arguments throw_if_found : simpl never.

Lemma matches_id_spec ex d :
  matches_id (exclude_query ex) d = true ↔ ¬ excluded ex d.
Proof.
  destruct ex as [[ids|id]|]; simpl.
  - by rewrite bool_decide_eq_true.
  - destruct (decide (id = "")) as [->|Hne]; simpl.
    + naive_solver.
    + rewrite bool_decide_eq_true. naive_solver.
  - naive_solver.
Qed.

Lemma array_in_singleton field v :
  array_in field [v] = true ↔ ∃ l, field = Some l ∧ v ∈ l.
Proof.
  destruct field as [l|]; simpl; [|naive_solver].
  rewrite bool_decide_eq_true, Exists_exists. split.
  - intros (x & Hx & ->%list_elem_of_singleton). eauto.
  - intros (l' & [= <-] & Hv). exists v. split; [done|]. by left.
Qed.

Lemma answered_collides ex c cs (P : ICustomerDocument → Prop) :
  (∀ d, matches_cond c d = true ↔ P d) →
  answered {| q_id := exclude_query ex; q_cond := c |} cs = true
  ↔ collides P ex cs.
Proof.
  intros HP. rewrite answered_spec. unfold collides, matches. simpl.
  split; intros (d & Hd & H); exists d; (split; [done|]).
  - apply andb_true_iff in H as [H1 H2].
    by rewrite <- matches_id_spec, <- HP.
  - destruct H as [H1 H2]. apply andb_true_iff.
    by rewrite matches_id_spec, HP.
Qed.

Lemma answered_twitter ex v cs :
  answered {| q_id := exclude_query ex; q_cond := TwitterDataId v |} cs = true
  ↔ collides (holds_twitter v) ex cs.
Proof.
  apply answered_collides. intros d. unfold holds_twitter. simpl.
  destruct (twitterData (data d)) as [t|]; [|naive_solver].
  rewrite bool_decide_eq_true. naive_solver.
Qed.

Lemma answered_facebook ex v cs :
  answered {| q_id := exclude_query ex; q_cond := FacebookDataId v |} cs = true
  ↔ collides (holds_facebook v) ex cs.
Proof.
  apply answered_collides. intros d. unfold holds_facebook. simpl.
  destruct (facebookData (data d)) as [t|]; [|naive_solver].
  rewrite bool_decide_eq_true. naive_solver.
Qed.

Lemma collides_or P Q ex cs :
  collides (λ d, P d ∨ Q d) ex cs ↔ collides P ex cs ∨ collides Q ex cs.
Proof. unfold collides. naive_solver. Qed.

Lemma answered_email ex v cs :
  answered {| q_id := exclude_query ex; q_cond := PrimaryEmailIs v |} cs = true
  ∨ answered {| q_id := exclude_query ex; q_cond := EmailsIn [v] |} cs = true
  ↔ collides (holds_email v) ex cs.
Proof.
  unfold holds_email. rewrite collides_or.
  rewrite <- (answered_collides ex (PrimaryEmailIs v)),
          <- (answered_collides ex (EmailsIn [v])); [done| |].
  - intros d. simpl. apply array_in_singleton.
  - intros d. simpl. by rewrite bool_decide_eq_true.
Qed.

Lemma answered_phone ex v cs :
  answered {| q_id := exclude_query ex; q_cond := PrimaryPhoneIs v |} cs = true
  ∨ answered {| q_id := exclude_query ex; q_cond := PhonesIn [v] |} cs = true
  ↔ collides (holds_phone v) ex cs.
Proof.
  unfold holds_phone. rewrite collides_or.
  rewrite <- (answered_collides ex (PrimaryPhoneIs v)),
          <- (answered_collides ex (PhonesIn [v])); [done| |].
  - intros d. simpl. apply array_in_singleton.
  - intros d. simpl. by rewrite bool_decide_eq_true.
Qed.

(** The checker only reads: the collection is the one it started from and
    the trace grew by [find] queries. *)
Lemma checkDuplication_reads f ex w :
  customers (snd (checkDuplication f ex w)) = customers w
  ∧ ∃ evs, trace (snd (checkDuplication f ex w)) = trace w ++ evs ∧ only_finds evs.
Proof.
  unfold checkDuplication, only_finds. run.
  destruct (CF.twitterData f) as [t|],
           (CF.facebookData f) as [b|],
           (truthy (CF.primaryEmail f)) as [e|],
           (truthy (CF.primaryPhone f)) as [p|];
    rewrite ?throw_if_found_run;
    repeat (destruct (answered _ _); simpl; rewrite ?throw_if_found_run);
    (split; [done|]); unfold logged; simpl; rewrite <- ?app_assoc; simpl;
    (eexists; split; [first [reflexivity | symmetry; apply app_nil_r]|]);
    repeat constructor; eauto.
Qed.

Lemma twitter_duplicated_iff f ex cs t :
  CF.twitterData f = Some t →
  twitter_duplicated f ex cs
  ↔ answered {| q_id := exclude_query ex;
                q_cond := TwitterDataId (Twitter.id t) |} cs = true.
Proof.
  intros Hf. rewrite answered_twitter. unfold twitter_duplicated.
  rewrite Hf. naive_solver.
Qed.

Lemma facebook_duplicated_iff f ex cs b :
  CF.facebookData f = Some b →
  facebook_duplicated f ex cs
  ↔ answered {| q_id := exclude_query ex;
                q_cond := FacebookDataId (Facebook.id b) |} cs = true.
Proof.
  intros Hf. rewrite answered_facebook. unfold facebook_duplicated.
  rewrite Hf. naive_solver.
Qed.

Lemma email_duplicated_iff f ex cs e :
  truthy (CF.primaryEmail f) = Some e →
  email_duplicated f ex cs
  ↔ answered {| q_id := exclude_query ex; q_cond := PrimaryEmailIs e |} cs = true
    ∨ answered {| q_id := exclude_query ex; q_cond := EmailsIn [e] |} cs = true.
Proof.
  intros Hf. rewrite answered_email. unfold email_duplicated.
  rewrite Hf. naive_solver.
Qed.

Lemma phone_duplicated_iff f ex cs p :
  truthy (CF.primaryPhone f) = Some p →
  phone_duplicated f ex cs
  ↔ answered {| q_id := exclude_query ex; q_cond := PrimaryPhoneIs p |} cs = true
    ∨ answered {| q_id := exclude_query ex; q_cond := PhonesIn [p] |} cs = true.
Proof.
  intros Hf. rewrite answered_phone. unfold phone_duplicated.
  rewrite Hf. naive_solver.
Qed.

Lemma twitter_absent f ex cs :
  CF.twitterData f = None → ¬ twitter_duplicated f ex cs.
Proof. intros Hf (t & Ht & _). congruence. Qed.

Lemma facebook_absent f ex cs :
  CF.facebookData f = None → ¬ facebook_duplicated f ex cs.
Proof. intros Hf (t & Ht & _). congruence. Qed.

Lemma email_absent f ex cs :
  truthy (CF.primaryEmail f) = None → ¬ email_duplicated f ex cs.
Proof. intros Hf (t & Ht & _). congruence. Qed.

Lemma phone_absent f ex cs :
  truthy (CF.primaryPhone f) = None → ¬ phone_duplicated f ex cs.
Proof. intros Hf (t & Ht & _). congruence. Qed.

(** The outcome of the checker, check by check. *)
Lemma checkDuplication_outcome f ex w :
  let r := fst (checkDuplication f ex w) in
  let cs := customers w in
  (r = Thrown (Error "Duplicated twitter") ↔ twitter_duplicated f ex cs)
  ∧ (r = Thrown (Error "Duplicated facebook")
     ↔ ¬ twitter_duplicated f ex cs ∧ facebook_duplicated f ex cs)
  ∧ (r = Thrown (Error "Duplicated email")
     ↔ ¬ twitter_duplicated f ex cs ∧ ¬ facebook_duplicated f ex cs
       ∧ email_duplicated f ex cs)
  ∧ (r = Thrown (Error "Duplicated phone")
     ↔ ¬ twitter_duplicated f ex cs ∧ ¬ facebook_duplicated f ex cs
       ∧ ¬ email_duplicated f ex cs ∧ phone_duplicated f ex cs)
  ∧ (r = Ok tt
     ↔ ¬ twitter_duplicated f ex cs ∧ ¬ facebook_duplicated f ex cs
       ∧ ¬ email_duplicated f ex cs ∧ ¬ phone_duplicated f ex cs).
Proof.
  intros r cs. subst r cs. unfold checkDuplication. run.
  destruct (CF.twitterData f) as [t|] eqn:Et;
    [ pose proof (twitter_duplicated_iff f ex (customers w) t Et) as Htw
    | pose proof (twitter_absent f ex (customers w) Et) as Htw ];
  (destruct (CF.facebookData f) as [b|] eqn:Eb;
    [ pose proof (facebook_duplicated_iff f ex (customers w) b Eb) as Hfb
    | pose proof (facebook_absent f ex (customers w) Eb) as Hfb ]);
  (destruct (truthy (CF.primaryEmail f)) as [e|] eqn:Ee;
    [ pose proof (email_duplicated_iff f ex (customers w) e Ee) as Hem
    | pose proof (email_absent f ex (customers w) Ee) as Hem ]);
  (destruct (truthy (CF.primaryPhone f)) as [p|] eqn:Ep;
    [ pose proof (phone_duplicated_iff f ex (customers w) p Ep) as Hph
    | pose proof (phone_absent f ex (customers w) Ep) as Hph ]);
  rewrite ?throw_if_found_run; simpl;
  repeat (match goal with
          | |- context [answered ?q (customers w)] =>
              destruct (answered q (customers w)) eqn:?; simpl
          end; rewrite ?throw_if_found_run; simpl);
  intuition (try discriminate; try congruence).
Qed.

(** The checker runs its plan. *)
Lemma checkDuplication_runs_plan f ex w :
  checkDuplication f ex w
  = (fst (first_failure (planned_checks f ex) (customers w)),
     {| customers := customers w;
        trace := trace w
                 ++ (DbFind <$> snd (first_failure (planned_checks f ex)
                                       (customers w))) |}).
Proof.
  destruct w as [cs tr]. unfold checkDuplication, planned_checks. run.
  destruct (CF.twitterData f) as [t|],
           (CF.facebookData f) as [b|],
           (truthy (CF.primaryEmail f)) as [e|],
           (truthy (CF.primaryPhone f)) as [p|];
    simpl; rewrite ?throw_if_found_run; simpl;
    repeat (destruct (answered _ cs); simpl; rewrite ?throw_if_found_run; simpl);
    unfold logged; simpl; rewrite <- ?app_assoc, ?app_nil_r; reflexivity.
Qed.

(** A planned query has an answer exactly when a stored, non-excluded
    document meets its condition. *)
Lemma planned_check_answered f ex cs q message :
  (q, message) ∈ planned_checks f ex →
  answered q cs = true
  ↔ ∃ d, d ∈ cs ∧ ¬ excluded ex d ∧ matches_cond (q_cond q) d = true.
Proof.
  intros Hin.
  assert (q_id q = exclude_query ex) as Hq.
  { unfold planned_checks in Hin.
    destruct (CF.twitterData f), (CF.facebookData f),
             (truthy (CF.primaryEmail f)), (truthy (CF.primaryPhone f));
      simpl in Hin;
      repeat (apply elem_of_cons in Hin as [[= -> _]|Hin]; [done|]);
      by apply elem_of_nil in Hin. }
  rewrite answered_spec. unfold matches. rewrite Hq.
  split; intros (d & Hd & H); exists d; (split; [done|]).
  - apply andb_true_iff in H as [H1 H2]. by rewrite <- matches_id_spec.
  - destruct H as [H1 H2]. apply andb_true_iff. by rewrite matches_id_spec.
Qed.

(** C3 (amended). The duplication checker throws [Error "Duplicated <field>"]
    exactly for the first identity check, in the order twitter, facebook,
    email, phone, that a stored non-excluded document matches (an email or a
    phone matches as primary value or inside the secondary list), where the
    email and the phone check are made only for a value that is present and
    not the empty string (and an empty string given as the single excluded
    identifier excludes nothing).  The checker issues its planned queries in
    the fixed order twitter, facebook, primary email, secondary emails,
    primary phone, secondary phones, and stops with the first one that has an
    answer: no query is issued after it, whichever check it is.  The checker
    only reads: the collection is unchanged and the trace grows by exactly
    those [find] queries. *)
Theorem checkDuplication_first_collision f ex w :
  let r := fst (checkDuplication f ex w) in
  let w' := snd (checkDuplication f ex w) in
  let cs := customers w in
  (r = Thrown (Error "Duplicated twitter") ↔ twitter_duplicated f ex cs)
  ∧ (r = Thrown (Error "Duplicated facebook")
     ↔ ¬ twitter_duplicated f ex cs ∧ facebook_duplicated f ex cs)
  ∧ (r = Thrown (Error "Duplicated email")
     ↔ ¬ twitter_duplicated f ex cs ∧ ¬ facebook_duplicated f ex cs
       ∧ email_duplicated f ex cs)
  ∧ (r = Thrown (Error "Duplicated phone")
     ↔ ¬ twitter_duplicated f ex cs ∧ ¬ facebook_duplicated f ex cs
       ∧ ¬ email_duplicated f ex cs ∧ phone_duplicated f ex cs)
  ∧ (r = Ok tt
     ↔ ¬ twitter_duplicated f ex cs ∧ ¬ facebook_duplicated f ex cs
       ∧ ¬ email_duplicated f ex cs ∧ ¬ phone_duplicated f ex cs)
  ∧ (∀ t, CF.twitterData f = Some t → twitter_duplicated f ex cs →
       w' = logged (DbFind {| q_id := exclude_query ex;
                              q_cond := TwitterDataId (Twitter.id t) |}) w)
  ∧ customers w' = customers w
  ∧ (∃ evs, trace w' = trace w ++ evs ∧ only_finds evs)
  ∧ checkDuplication f ex w
    = (fst (first_failure (planned_checks f ex) cs),
       {| customers := cs;
          trace := trace w
                   ++ (DbFind <$> snd (first_failure (planned_checks f ex) cs)) |})
  ∧ (∀ q message, (q, message) ∈ planned_checks f ex →
       answered q cs = true
       ↔ ∃ d, d ∈ cs ∧ ¬ excluded ex d ∧ matches_cond (q_cond q) d = true).
Proof.
  intros r w' cs.
  destruct (checkDuplication_outcome f ex w) as (H1 & H2 & H3 & H4 & H5).
  destruct (checkDuplication_reads f ex w) as (H6 & H7).
  repeat (split; [assumption|]). split; [|split; [done|split; [done|split]]].
  - intros t Ht Hdup. subst w' cs.
    apply (twitter_duplicated_iff f ex _ t Ht) in Hdup.
    unfold checkDuplication. run. rewrite Ht, throw_if_found_run, Hdup. done.
  - apply checkDuplication_runs_plan.
  - intros q message. apply planned_check_answered.
Qed.

(** C3 as stated fails for an empty string: after [createCustomer] has
    stored a customer whose primary email is the empty string, a candidate
    with that same primary email passes the checker, which issues no query,
    although its primary email equals a stored primary email. *)
Lemma checkDuplication_empty_email_unchecked :
  ∃ a w1,
    createCustomer Demo.env (only_primaryEmail "") None Demo.empty_world
    = (Ok a, w1)
    ∧ customers w1 = [a]
    ∧ primaryEmail (data a) = Some ""
    ∧ CF.primaryEmail (as_customerFields (only_primaryEmail "")) = Some ""
    ∧ holds_email "" a
    ∧ checkDuplication (as_customerFields (only_primaryEmail "")) None w1
      = (Ok tt, w1).
Proof.
  eexists _, _. split; [vm_compute; reflexivity|].
  split; [reflexivity|]. split; [reflexivity|]. split; [reflexivity|].
  split; [by left|]. reflexivity.
Qed.

(** A candidate whose identity fields are all absent or falsy is checked
    without a single query. *)
Lemma checkDuplication_nothing_to_check f ex w :
  CF.twitterData f = None → CF.facebookData f = None →
  truthy (CF.primaryEmail f) = None → truthy (CF.primaryPhone f) = None →
  checkDuplication f ex w = (Ok tt, w).
Proof.
  intros H1 H2 H3 H4. unfold checkDuplication. run.
  by rewrite H1, H2, H3, H4.
Qed.

(** ** createCustomer *)

Section Create.
Context (env : Environment).

Lemma createCustomer_check_fails doc user w e w1 :
  checkDuplication (as_customerFields doc) None w = (Thrown e, w1) →
  createCustomer env doc user w = (Thrown e, w1).
Proof. intros H. unfold createCustomer. run. by rewrite H. Qed.

Lemma createCustomer_check_passes doc user w w1 :
  checkDuplication (as_customerFields doc) None w = (Ok tt, w1) →
  createCustomer env doc user w
  = let doc1 := match truthy (ownerId doc), user with
                | None, Some u => set_ownerId (Some (Users._id u)) doc
                | _, _ => doc
                end in
    let payload := default [] (customFieldsData doc1) in
    let w2 := logged (Collaborator (Fields_cleanMulti payload)) w1 in
    match collaborator_throws env w1 (Fields_cleanMulti payload) with
    | Some msg => (Thrown (CollaboratorError msg), w2)
    | None =>
        let w3 := logged NewDate w2 in
        let w4 := logged NewDate w3 in
        let d := {| _id := newId env w4;
                    createdAt := Some (now env w2);
                    modifiedAt := Some (now env w3);
                    data := set_customFieldsData
                              (Some (cleanMulti_value env w1 payload)) doc1 |} in
        if bool_decide (_id d ∈ _id <$> customers w4)
        then (Thrown (MongoError "E11000 duplicate key error"), w4)
        else (Ok d, {| customers := customers w4 ++ [d];
                       trace := trace w4 ++ [DbCreate d] |})
    end.
Proof.
  intros H. unfold createCustomer. run. rewrite H.
  unfold Fields_cleanMulti_call. run. rewrite call_run.
  destruct (collaborator_throws env w1 _); [done|]. simpl.
  unfold new_Date, Customers_create. run.
  by destruct (bool_decide _).
Qed.

End Create.

Section CreateCases.
Context (env : Environment).

(** Every way [createCustomer] can end, from the outcome of its check. *)
Lemma createCustomer_cases doc user w r w1 :
  checkDuplication (as_customerFields doc) None w = (r, w1) →
  let payload := default [] (customFieldsData doc) in
  let w2 := logged (Collaborator (Fields_cleanMulti payload)) w1 in
  let w3 := logged NewDate w2 in
  let w4 := logged NewDate w3 in
  match r, collaborator_throws env w1 (Fields_cleanMulti payload) with
  | Thrown e, _ => createCustomer env doc user w = (Thrown e, w1)
  | Ok _, Some msg =>
      createCustomer env doc user w = (Thrown (CollaboratorError msg), w2)
  | Ok _, None =>
      if bool_decide (newId env w4 ∈ _id <$> customers w)
      then createCustomer env doc user w
           = (Thrown (MongoError "E11000 duplicate key error"), w4)
      else ∃ d,
        createCustomer env doc user w
        = (Ok d, {| customers := customers w ++ [d];
                    trace := trace w4 ++ [DbCreate d] |})
        ∧ _id d = newId env w4
        ∧ createdAt d = Some (now env w2)
        ∧ modifiedAt d = Some (now env w3)
        ∧ customFieldsData (data d) = Some (cleanMulti_value env w1 payload)
        ∧ ownerId (data d)
          = match truthy (ownerId doc), user with
            | None, Some u => Some (Users._id u)
            | _, _ => ownerId doc
            end
        ∧ (∀ u, ownerId doc = None → user = Some u →
             ownerId (data d) = Some (Users._id u))
        ∧ set_ownerId (ownerId doc)
            (set_customFieldsData (customFieldsData doc) (data d)) = doc
        ∧ data d
          = set_customFieldsData (Some (cleanMulti_value env w1 payload))
              match truthy (ownerId doc), user with
              | None, Some u => set_ownerId (Some (Users._id u)) doc
              | _, _ => doc
              end
  end.
Proof.
  intros Hchk payload w2 w3 w4.
  pose proof (checkDuplication_reads (as_customerFields doc) None w) as [Hcs _].
  rewrite Hchk in Hcs. simpl in Hcs.
  destruct r as [[]|e].
  - rewrite (createCustomer_check_passes env doc user w w1 Hchk).
    subst w2 w3 w4 payload.
    destruct (truthy (ownerId doc)) eqn:Eo, user as [u|]; cbn;
      (destruct (collaborator_throws env w1 _); [done|]);
      rewrite Hcs; (destruct (bool_decide _); [done|]);
      (eexists; split; [reflexivity|]); cbn;
      repeat split; try (by destruct doc);
      try (intros ? Ho Hu; rewrite Ho in Eo; by simplify_eq/=).
  - destruct (collaborator_throws env w1 (Fields_cleanMulti payload));
      by apply createCustomer_check_fails.
Qed.
End CreateCases.

(** The only exceptions the checker throws are the four [Duplicated ...]
    errors. *)
Lemma checkDuplication_throws f ex w e :
  fst (checkDuplication f ex w) = Thrown e →
  ∃ field, field ∈ ["twitter"; "facebook"; "email"; "phone"]
           ∧ e = Error ("Duplicated " +:+ field).
Proof.
  unfold checkDuplication. run.
  destruct (CF.twitterData f) as [t|],
           (CF.facebookData f) as [b|],
           (truthy (CF.primaryEmail f)) as [m|],
           (truthy (CF.primaryPhone f)) as [p|];
    rewrite ?throw_if_found_run;
    repeat (destruct (answered _ _); simpl; rewrite ?throw_if_found_run);
    simpl; intros [= <-] || (intros ?; discriminate).
  all: eexists; (split; [|reflexivity]);
    repeat first [apply list_elem_of_here | apply list_elem_of_further].
Qed.

Lemma createCustomer_Error env doc user w msg :
  fst (createCustomer env doc user w) = Thrown (Error msg) →
  fst (checkDuplication (as_customerFields doc) None w) = Thrown (Error msg).
Proof.
  destruct (checkDuplication (as_customerFields doc) None w) as [r w1] eqn:Hchk.
  pose proof (createCustomer_cases env doc user w r w1 Hchk) as H.
  cbv zeta in H. destruct r as [[]|e].
  - destruct (collaborator_throws env w1 _); [by rewrite H|].
    destruct (bool_decide _); [by rewrite H|].
    destruct H as (d & -> & _). done.
  - simpl in H. rewrite H. by intros [= ->].
Qed.

(** C8. A candidate with no twitter data, no facebook data, no primary email
    and no primary phone passes the checker, whatever is stored and whatever
    is excluded, without a single query (the world, trace included, is the
    one before the call); so creating such a customer never fails with a
    [Duplicated ...] error. *)
Theorem checkDuplication_no_identity_fields f ex w :
  CF.twitterData f = None → CF.facebookData f = None →
  CF.primaryEmail f = None → CF.primaryPhone f = None →
  checkDuplication f ex w = (Ok tt, w)
  ∧ ∀ env doc user msg,
      as_customerFields doc = f →
      fst (createCustomer env doc user w) ≠ Thrown (Error msg).
Proof.
  intros H1 H2 H3 H4.
  assert (∀ ex', checkDuplication f ex' w = (Ok tt, w)) as Hpass.
  { intros ex'. apply checkDuplication_nothing_to_check; try done.
    - by rewrite H3.
    - by rewrite H4. }
  split; [done|]. intros env doc user msg <- Hthrown.
  apply createCustomer_Error in Hthrown. by rewrite Hpass in Hthrown.
Qed.

(** ** mergeCustomers: the duplicate check comes first *)

(** C5. When the checker, run on the supplied fields with every input
    identifier excluded, throws, [mergeCustomers] throws that same
    [Duplicated ...] error at once: the collection is the one before the
    call and the only effects are the checker's [find] queries (nothing was
    removed, nothing created). *)
Theorem mergeCustomers_duplicate_before_mutation env customerIds customerFields w e w1 :
  checkDuplication (as_customerFields customerFields)
    (Some (IdList customerIds)) w = (Thrown e, w1) →
  mergeCustomers env customerIds customerFields w = (Thrown e, w1)
  ∧ (∃ field, field ∈ ["twitter"; "facebook"; "email"; "phone"]
              ∧ e = Error ("Duplicated " +:+ field))
  ∧ customers w1 = customers w
  ∧ ∃ evs, trace w1 = trace w ++ evs ∧ only_finds evs.
Proof.
  intros Hchk.
  pose proof (checkDuplication_reads (as_customerFields customerFields)
                (Some (IdList customerIds)) w) as Hreads.
  pose proof (checkDuplication_throws (as_customerFields customerFields)
                (Some (IdList customerIds)) w e) as Hthrows.
  rewrite Hchk in Hreads, Hthrows. simpl in *.
  split; [|by split; [apply Hthrows|]].
  unfold mergeCustomers. run. by rewrite Hchk.
Qed.

(** ** removeCustomer *)

(** C6. [removeCustomer] calls the four cascades in the order ActivityLogs,
    Conversations, EngageMessages, InternalNotes; the first one that throws
    ends the method with that exception, after the calls made so far and
    nothing else; only when all four succeeded is the customer removed.
    Hence, whenever the method throws, the collection is unchanged. *)
Theorem removeCustomer_cascade env customerId w :
  let c1 := ActivityLogs_removeCustomerActivityLog customerId in
  let c2 := Conversations_removeCustomerConversations customerId in
  let c3 := EngageMessages_removeCustomerEngages customerId in
  let c4 := InternalNotes_removeCustomerInternalNotes customerId in
  let w1 := logged (Collaborator c1) w in
  let w2 := logged (Collaborator c2) w1 in
  let w3 := logged (Collaborator c3) w2 in
  let w4 := logged (Collaborator c4) w3 in
  removeCustomer env customerId w
  = match collaborator_throws env w c1, collaborator_throws env w1 c2,
          collaborator_throws env w2 c3, collaborator_throws env w3 c4 with
    | Some msg, _, _, _ => (Thrown (CollaboratorError msg), w1)
    | None, Some msg, _, _ => (Thrown (CollaboratorError msg), w2)
    | None, None, Some msg, _ => (Thrown (CollaboratorError msg), w3)
    | None, None, None, Some msg => (Thrown (CollaboratorError msg), w4)
    | None, None, None, None =>
        (Ok tt, {| customers := filter (λ d, _id d ≠ customerId) (customers w);
                   trace := trace w ++ [Collaborator c1; Collaborator c2;
                                        Collaborator c3; Collaborator c4;
                                        DbRemove customerId] |})
    end
  ∧ (∀ e w', removeCustomer env customerId w = (Thrown e, w') →
       customers w' = customers w
       ∧ lookup_customer customerId (customers w')
         = lookup_customer customerId (customers w)
       ∧ ∃ n, trace w' = trace w ++ take (S n) [Collaborator c1; Collaborator c2;
                                                 Collaborator c3; Collaborator c4]).
Proof.
  intros c1 c2 c3 c4 w1 w2 w3 w4.
  assert (removeCustomer env customerId w
          = match collaborator_throws env w c1, collaborator_throws env w1 c2,
                  collaborator_throws env w2 c3, collaborator_throws env w3 c4 with
            | Some msg, _, _, _ => (Thrown (CollaboratorError msg), w1)
            | None, Some msg, _, _ => (Thrown (CollaboratorError msg), w2)
            | None, None, Some msg, _ => (Thrown (CollaboratorError msg), w3)
            | None, None, None, Some msg => (Thrown (CollaboratorError msg), w4)
            | None, None, None, None =>
                (Ok tt, {| customers := filter (λ d, _id d ≠ customerId) (customers w);
                           trace := trace w ++ [Collaborator c1; Collaborator c2;
                                                Collaborator c3; Collaborator c4;
                                                DbRemove customerId] |})
            end) as Hrun.
  { unfold removeCustomer. run. rewrite call_run. fold c1 w1.
    destruct (collaborator_throws env w c1); [done|].
    rewrite call_run. fold c2 w2.
    destruct (collaborator_throws env w1 c2); [done|].
    rewrite call_run. fold c3 w3.
    destruct (collaborator_throws env w2 c3); [done|].
    rewrite call_run. fold c4 w4.
    destruct (collaborator_throws env w3 c4); [done|].
    rewrite Customers_remove_run. simpl. by rewrite <- !app_assoc. }
  split; [exact Hrun|]. intros e w'. rewrite Hrun.
  destruct (collaborator_throws env w c1);
    [|destruct (collaborator_throws env w1 c2);
      [|destruct (collaborator_throws env w2 c3);
        [|destruct (collaborator_throws env w3 c4)]]];
    intros [= <- <-]; (split; [done|]); (split; [done|]).
  - by exists 0%nat.
  - exists 1%nat. simpl. by rewrite <- !app_assoc.
  - exists 2%nat. simpl. by rewrite <- !app_assoc.
  - exists 3%nat. simpl. by rewrite <- !app_assoc.
Qed.

(** ** Array.from(new Set(xs)) *)

Lemma Set_add_all_elem seen xs x :
  x ∈ Set_add_all seen xs ↔ x ∈ seen ∨ x ∈ xs.
Proof.
  revert seen. induction xs as [|y xs IH]; intros seen; simpl.
  - rewrite elem_of_nil. naive_solver.
  - rewrite IH, elem_of_cons. destruct (decide (y ∈ seen)).
    + naive_solver.
    + rewrite elem_of_app, list_elem_of_singleton. naive_solver.
Qed.

Lemma Set_add_all_NoDup seen xs :
  NoDup seen → NoDup (Set_add_all seen xs).
Proof.
  revert seen. induction xs as [|y xs IH]; intros seen Hnd; simpl; [done|].
  apply IH. destruct (decide (y ∈ seen)); [done|].
  apply NoDup_app. split_and!; [done| |apply NoDup_singleton].
  intros z Hz ->%list_elem_of_singleton. done.
Qed.

Lemma Array_from_Set_elem xs x : x ∈ Array_from_Set xs ↔ x ∈ xs.
Proof.
  unfold Array_from_Set. rewrite Set_add_all_elem, elem_of_nil. naive_solver.
Qed.

Lemma Array_from_Set_NoDup xs : NoDup (Array_from_Set xs).
Proof. apply Set_add_all_NoDup, NoDup_nil_2. Qed.

(** ** Lookups in the collection *)

Lemma lookup_customer_Some id cs d :
  lookup_customer id cs = Some d → d ∈ cs ∧ _id d = id.
Proof.
  unfold lookup_customer. intros H.
  destruct (list_find _ cs) as [[i d']|] eqn:E; simplify_eq/=.
  apply list_find_Some in E as (Hi & Hd & _). split; [|done].
  by eapply list_elem_of_lookup_2.
Qed.

Lemma lookup_customer_None id cs :
  lookup_customer id cs = None ↔ ∀ d, d ∈ cs → _id d ≠ id.
Proof.
  unfold lookup_customer. rewrite fmap_None, list_find_None, Forall_forall.
  done.
Qed.

Lemma lookup_customer_cons id d cs :
  lookup_customer id (d :: cs)
  = if decide (_id d = id) then Some d else lookup_customer id cs.
Proof.
  unfold lookup_customer. simpl. destruct (decide (_id d = id)); [done|].
  destruct (list_find _ cs) as [[i d']|]; done.
Qed.

Lemma lookup_customer_removed id cs :
  lookup_customer id (filter (λ d, _id d ≠ id) cs) = None.
Proof.
  apply lookup_customer_None. intros d Hd.
  by apply list_elem_of_filter in Hd as [Hne _].
Qed.

Lemma lookup_customer_removed_other id id' cs :
  id ≠ id' →
  lookup_customer id' (filter (λ d, _id d ≠ id) cs) = lookup_customer id' cs.
Proof.
  intros Hne. induction cs as [|d cs IH]; [done|].
  rewrite filter_cons, (lookup_customer_cons id' d cs).
  destruct (decide (_id d ≠ id)) as [Hd|Hd].
  - rewrite lookup_customer_cons. by destruct (decide (_id d = id')).
  - destruct (decide (_id d = id')) as [Heq|]; [|done].
    exfalso. apply Hd. congruence.
Qed.

Lemma filter_absent id cs :
  lookup_customer id cs = None → filter (λ d, _id d ≠ id) cs = cs.
Proof.
  rewrite lookup_customer_None. intros H.
  induction cs as [|d cs IH]; [done|].
  rewrite filter_cons, decide_True by (apply H; left).
  f_equal. apply IH. intros d' Hd'. apply H. by right.
Qed.

(** ** The merge loop *)

Lemma merge_loop_run customerIds st w :
  merge_loop customerIds st w
  = (Ok (fst (merge_fold customerIds st (customers w))),
     {| customers := snd (merge_fold customerIds st (customers w));
        trace := trace w ++ merge_events customerIds (customers w) |}).
Proof.
  revert st w. induction customerIds as [|id rest IH]; intros st w; simpl.
  - destruct w. run. by rewrite app_nil_r.
  - run. unfold merge_step. run.
    destruct (lookup_customer id (customers w)) as [obj|]; run;
      rewrite IH; simpl; by rewrite <- !app_assoc.
Qed.

(** After the loop, the collection holds the documents whose identifier is
    not among the input identifiers. *)
Lemma merge_fold_remaining customerIds st cs :
  snd (merge_fold customerIds st cs) = filter (λ d, _id d ∉ customerIds) cs.
Proof.
  revert st cs. induction customerIds as [|id rest IH]; intros st cs; simpl.
  - induction cs as [|d cs IHcs]; [done|].
    rewrite filter_cons, decide_True by apply not_elem_of_nil. by f_equal.
  - assert (filter (λ d, _id d ∉ rest) (filter (λ d, _id d ≠ id) cs)
            = filter (λ d, _id d ∉ id :: rest) cs) as Hfilter.
    { clear. induction cs as [|d cs IHcs]; [done|].
      rewrite !filter_cons. destruct (decide (_id d ≠ id)) as [Hd|Hd].
      - rewrite filter_cons. destruct (decide (_id d ∉ rest)) as [Hr|Hr].
        + rewrite decide_True by (rewrite not_elem_of_cons; done). by f_equal.
        + rewrite decide_False; [done|]. rewrite not_elem_of_cons. naive_solver.
      - rewrite decide_False; [done|]. rewrite not_elem_of_cons. naive_solver. }
    destruct (lookup_customer id cs) as [obj|] eqn:E.
    + by rewrite IH.
    + rewrite IH. rewrite <- Hfilter. by rewrite (filter_absent id cs E).
Qed.

(** An identifier with no document can be dropped from the list: the loop
    variables and the collection come out the same. *)
Lemma merge_fold_skip ids1 id ids2 st cs :
  lookup_customer id cs = None →
  merge_fold (ids1 ++ id :: ids2) st cs = merge_fold (ids1 ++ ids2) st cs.
Proof.
  revert st cs. induction ids1 as [|i ids1 IH]; intros st cs Hnone; simpl.
  - by rewrite Hnone.
  - destruct (lookup_customer i cs) as [obj|] eqn:E; [|by apply IH].
    apply IH. apply lookup_customer_None. intros d Hd.
    apply list_elem_of_filter in Hd as [_ Hd].
    by apply (proj1 (lookup_customer_None id cs) Hnone).
Qed.

Lemma merge_fold_all_missing customerIds st cs :
  (∀ id, id ∈ customerIds → lookup_customer id cs = None) →
  merge_fold customerIds st cs = (st, cs).
Proof.
  induction customerIds as [|id rest IH]; intros H; simpl; [done|].
  rewrite H by left. apply IH. intros id' Hid'. apply H. by right.
Qed.

Lemma merge_events_all_missing customerIds cs :
  (∀ id, id ∈ customerIds → lookup_customer id cs = None) →
  merge_events customerIds cs = DbFindOne <$> customerIds.
Proof.
  induction customerIds as [|id rest IH]; intros H; simpl; [done|].
  rewrite H by left. f_equal. apply IH. intros id' Hid'. apply H. by right.
Qed.

(** ** mergeCustomers *)

(** Without an exclusion, on the collection left by the loop, the checker
    finds nothing it did not find before the loop with the input identifiers
    excluded. *)
Lemma collides_after_removal P customerIds cs :
  collides P None (filter (λ d, _id d ∉ customerIds) cs) →
  collides P (Some (IdList customerIds)) cs.
Proof.
  intros (d & Hd & _ & HP). apply list_elem_of_filter in Hd as [Hex Hd].
  by exists d.
Qed.

Lemma checkDuplication_after_removal f customerIds w w2 :
  fst (checkDuplication f (Some (IdList customerIds)) w) = Ok tt →
  customers w2 = filter (λ d, _id d ∉ customerIds) (customers w) →
  fst (checkDuplication f None w2) = Ok tt.
Proof.
  intros Hok Hcs.
  apply (checkDuplication_outcome f _ w) in Hok as (H1 & H2 & H3 & H4).
  apply (checkDuplication_outcome f None w2). rewrite Hcs.
  unfold twitter_duplicated, facebook_duplicated, email_duplicated,
    phone_duplicated in *.
  split_and!; intros (v & Hv & Hc%collides_after_removal); eauto.
Qed.

Lemma merge_fold_identity customerIds st cs :
  as_customerFields (m_customerFields (fst (merge_fold customerIds st cs)))
  = as_customerFields (m_customerFields st).
Proof.
  revert st cs. induction customerIds as [|id rest IH]; intros st cs; simpl; [done|].
  destruct (lookup_customer id cs); by rewrite IH.
Qed.

Section Merge.
Context (env : Environment).

(** The four [changeCustomer] notifications that end [mergeCustomers]. *)
Lemma notify_run (customer : ICustomerDocument) customerIds w :
  (call env (ActivityLogs_changeCustomer (_id customer) customerIds);;
   call env (Conversations_changeCustomer (_id customer) customerIds);;
   call env (EngageMessages_changeCustomer (_id customer) customerIds);;
   call env (InternalNotes_changeCustomer (_id customer) customerIds);;
   ret customer) w
  = let c1 := ActivityLogs_changeCustomer (_id customer) customerIds in
    let c2 := Conversations_changeCustomer (_id customer) customerIds in
    let c3 := EngageMessages_changeCustomer (_id customer) customerIds in
    let c4 := InternalNotes_changeCustomer (_id customer) customerIds in
    let w1 := logged (Collaborator c1) w in
    let w2 := logged (Collaborator c2) w1 in
    let w3 := logged (Collaborator c3) w2 in
    let w4 := logged (Collaborator c4) w3 in
    match collaborator_throws env w c1, collaborator_throws env w1 c2,
          collaborator_throws env w2 c3, collaborator_throws env w3 c4 with
    | Some msg, _, _, _ => (Thrown (CollaboratorError msg), w1)
    | None, Some msg, _, _ => (Thrown (CollaboratorError msg), w2)
    | None, None, Some msg, _ => (Thrown (CollaboratorError msg), w3)
    | None, None, None, Some msg => (Thrown (CollaboratorError msg), w4)
    | None, None, None, None => (Ok customer, w4)
    end.
Proof.
  cbv zeta. run. rewrite call_run.
  destruct (collaborator_throws env w _); [done|].
  rewrite call_run. destruct (collaborator_throws env _ _); [done|].
  rewrite call_run. destruct (collaborator_throws env _ _); [done|].
  rewrite call_run. destruct (collaborator_throws env _ _); done.
Qed.

(** The survivor's attributes before [createCustomer] cleans the custom
    fields. *)
Lemma mergeCustomers_run customerIds customerFields w w1 :
  checkDuplication (as_customerFields customerFields)
    (Some (IdList customerIds)) w = (Ok tt, w1) →
  mergeCustomers env customerIds customerFields w
  = let st := fst (merge_fold customerIds (merge_init customerFields) (customers w)) in
    let w2 := {| customers := filter (λ d, _id d ∉ customerIds) (customers w);
                 trace := trace w1 ++ merge_events customerIds (customers w) |} in
    match createCustomer env
            (with_merged (m_customerFields st)
               (Array_from_Set (m_tagIds st)) (Array_from_Set (m_companyIds st))
               (Array_from_Set (m_emails st)) (Array_from_Set (m_phones st)))
            None w2 with
    | (Ok customer, w3) =>
        (call env (ActivityLogs_changeCustomer (_id customer) customerIds);;
         call env (Conversations_changeCustomer (_id customer) customerIds);;
         call env (EngageMessages_changeCustomer (_id customer) customerIds);;
         call env (InternalNotes_changeCustomer (_id customer) customerIds);;
         ret customer) w3
    | (Thrown e, w3) => (Thrown e, w3)
    end.
Proof.
  intros Hchk.
  pose proof (checkDuplication_reads (as_customerFields customerFields)
                (Some (IdList customerIds)) w) as [Hcs _].
  rewrite Hchk in Hcs. simpl in Hcs.
  unfold mergeCustomers.
  unfold mbind at 1, M_bind at 1, bind at 1. rewrite Hchk.
  unfold mbind at 1, M_bind at 1, bind at 1. rewrite merge_loop_run.
  rewrite Hcs, merge_fold_remaining.
  unfold mbind at 1, M_bind at 1, bind at 1. cbv zeta.
  by destruct (createCustomer env _ None _) as [[c|e] w3].
Qed.

Lemma createCustomer_Ok_inv doc w d w' :
  createCustomer env doc None w = (Ok d, w') →
  customers w' = customers w ++ [d]
  ∧ data d = set_customFieldsData (customFieldsData (data d)) doc
  ∧ ∃ evs, trace w' = trace w ++ evs ++ [DbCreate d].
Proof.
  destruct (checkDuplication (as_customerFields doc) None w) as [r w1] eqn:Hchk.
  pose proof (createCustomer_cases env doc None w r w1 Hchk) as H.
  pose proof (checkDuplication_reads (as_customerFields doc) None w)
    as (_ & evs & Hevs & _).
  rewrite Hchk in Hevs. simpl in Hevs.
  cbv zeta in H. destruct r as [[]|e]; simpl in H; [|by rewrite H].
  destruct (collaborator_throws env w1 _); [by rewrite H|].
  destruct (bool_decide _); [by rewrite H|].
  destruct H as (d' & -> & _ & _ & _ & _ & _ & _ & _ & Hdata).
  intros [= <- <-]. simpl. split_and!; [done| |].
  - rewrite Hdata. by destruct (truthy (ownerId doc)).
  - exists (evs ++ [Collaborator (Fields_cleanMulti (default [] (customFieldsData doc)));
                    NewDate; NewDate]).
    rewrite Hevs, <- !app_assoc. reflexivity.
Qed.

Lemma mergeCustomers_Ok_inv customerIds customerFields w c w' :
  mergeCustomers env customerIds customerFields w = (Ok c, w') →
  let st := fst (merge_fold customerIds (merge_init customerFields) (customers w)) in
  customers w' = filter (λ d, _id d ∉ customerIds) (customers w) ++ [c]
  ∧ data c
    = set_customFieldsData (customFieldsData (data c))
        (with_merged (m_customerFields st)
           (Array_from_Set (m_tagIds st)) (Array_from_Set (m_companyIds st))
           (Array_from_Set (m_emails st)) (Array_from_Set (m_phones st)))
  ∧ ∃ evs1 evs2 evs3,
      trace w' = trace w ++ evs1 ++ merge_events customerIds (customers w)
                 ++ evs2 ++ [DbCreate c] ++ evs3.
Proof.
  intros Hm st.
  destruct (checkDuplication (as_customerFields customerFields)
              (Some (IdList customerIds)) w) as [[[]|e] w1] eqn:Hchk.
  2:{ unfold mergeCustomers in Hm. revert Hm. run. by rewrite Hchk. }
  pose proof (checkDuplication_reads (as_customerFields customerFields)
                (Some (IdList customerIds)) w) as (_ & evs1 & Hevs1 & _).
  rewrite Hchk in Hevs1. simpl in Hevs1.
  rewrite (mergeCustomers_run _ _ _ _ Hchk) in Hm. cbv zeta in Hm. fold st in Hm.
  destruct (createCustomer env _ None _) as [[c'|e] w3] eqn:Hc; [|done].
  apply createCustomer_Ok_inv in Hc as (Hcs & Hdata & evs2 & Hevs2).
  simpl in Hcs, Hevs2, Hdata.
  rewrite notify_run in Hm. cbv zeta in Hm.
  repeat (destruct (collaborator_throws env _ _); [done|]).
  injection Hm as <- <-. simpl. split_and!; [done..|].
  exists evs1, evs2,
      [Collaborator (ActivityLogs_changeCustomer (_id c') customerIds);
       Collaborator (Conversations_changeCustomer (_id c') customerIds);
       Collaborator (EngageMessages_changeCustomer (_id c') customerIds);
       Collaborator (InternalNotes_changeCustomer (_id c') customerIds)].
  rewrite Hevs2, Hevs1, <- !app_assoc. reflexivity.
Qed.

(** Under the two assumptions on the environment, a merge whose duplicate
    check passes goes through. *)
Lemma mergeCustomers_succeeds customerIds customerFields w :
  issues_unused_ids env → collaborators_succeed env →
  fst (checkDuplication (as_customerFields customerFields)
         (Some (IdList customerIds)) w) = Ok tt →
  ∃ c w', mergeCustomers env customerIds customerFields w = (Ok c, w').
Proof.
  intros Hids Hcol Hok.
  destruct (checkDuplication (as_customerFields customerFields)
              (Some (IdList customerIds)) w) as [r w1] eqn:Hchk.
  simpl in Hok. subst r.
  rewrite (mergeCustomers_run _ _ _ _ Hchk). cbv zeta.
  set (st := fst (merge_fold customerIds (merge_init customerFields) (customers w))).
  set (w2 := {| customers := filter (λ d, _id d ∉ customerIds) (customers w);
                trace := trace w1 ++ merge_events customerIds (customers w) |}).
  set (doc := with_merged _ _ _ _ _).
  assert (fst (checkDuplication (as_customerFields doc) None w2) = Ok tt) as Hok2.
  { apply (checkDuplication_after_removal _ customerIds w); [|done].
    change (as_customerFields doc) with (as_customerFields (m_customerFields st)).
    unfold st. rewrite merge_fold_identity. simpl. by rewrite Hchk. }
  destruct (checkDuplication (as_customerFields doc) None w2) as [r2 w2'] eqn:Hchk2.
  simpl in Hok2. subst r2.
  pose proof (createCustomer_cases env doc None w2 _ _ Hchk2) as H.
  cbv zeta in H. rewrite Hcol in H.
  pose proof (checkDuplication_reads (as_customerFields doc) None w2) as [Hcs _].
  rewrite Hchk2 in Hcs. cbn [snd] in Hcs.
  rewrite bool_decide_eq_false_2 in H.
  2:{ rewrite <- Hcs. apply (Hids (logged NewDate (logged NewDate (logged _ w2')))). }
  destruct H as (d & -> & _). rewrite notify_run. cbv zeta.
  rewrite !Hcol. eauto.
Qed.

End Merge.

(** ** Merging two stored customers *)

Lemma lookup_customer_unique_doc A B a b cs :
  lookup_customer A cs = Some a → lookup_customer B cs = Some b → A = B → a = b.
Proof. intros Ha Hb <-. congruence. Qed.

(** The loop variables after the loop over [[A; B]]. *)
Lemma merge_fold_pair A B a b st cs :
  lookup_customer A cs = Some a → lookup_customer B cs = Some b →
  fst (merge_fold [A; B] st cs)
  = if decide (A = B) then absorb a st else absorb b (absorb a st).
Proof.
  intros Ha Hb. simpl. rewrite Ha. destruct (decide (A = B)) as [<-|Hne].
  - by rewrite lookup_customer_removed.
  - by rewrite lookup_customer_removed_other, Hb.
Qed.

(** A found input identifier is removed by the loop. *)
Lemma merge_events_removes id customerIds cs :
  id ∈ customerIds → is_Some (lookup_customer id cs) →
  DbRemove id ∈ merge_events customerIds cs.
Proof.
  revert cs. induction customerIds as [|i rest IH]; intros cs Hin Hsome.
  - by apply elem_of_nil in Hin.
  - simpl. destruct (decide (i = id)) as [->|Hne].
    + destruct Hsome as [d ->]. right. left.
    + apply elem_of_cons in Hin as [->|Hin]; [done|].
      destruct (lookup_customer i cs) eqn:E.
      * right. right. apply IH; [done|].
        by rewrite lookup_customer_removed_other.
      * right. by apply IH.
Qed.

Lemma elem_of_union_pair (x : string) (s l1 l2 : list string) :
  x ∈ (s ++ l1) ++ l2 ↔ x ∈ s ∨ x ∈ l1 ∨ x ∈ l2.
Proof. rewrite !elem_of_app. naive_solver. Qed.

Section MergePair.
Context (env : Environment).

(** What the survivor of a merge of two stored customers carries. *)
Lemma mergeCustomers_pair_data A B a b customerFields w c w' :
  lookup_customer A (customers w) = Some a →
  lookup_customer B (customers w) = Some b →
  mergeCustomers env [A; B] customerFields w = (Ok c, w') →
  ∃ ts cos es ps,
    tagIds (data c) = Some (Array_from_Set ts)
    ∧ companyIds (data c) = Some (Array_from_Set cos)
    ∧ emails (data c) = Some (Array_from_Set es)
    ∧ phones (data c) = Some (Array_from_Set ps)
    ∧ (∀ x, x ∈ ts ↔ x ∈ array_of tagIds a ∨ x ∈ array_of tagIds b)
    ∧ (∀ x, x ∈ cos ↔ x ∈ array_of companyIds a ∨ x ∈ array_of companyIds b)
    ∧ (∀ x, x ∈ es ↔ x ∈ seed (primaryEmail customerFields)
                      ∨ x ∈ array_of emails a ∨ x ∈ array_of emails b)
    ∧ (∀ x, x ∈ ps ↔ x ∈ seed (primaryPhone customerFields)
                      ∨ x ∈ array_of phones a ∨ x ∈ array_of phones b)
    ∧ integrationId (data c) = integrationId (data b).
Proof.
  intros Ha Hb Hm.
  apply mergeCustomers_Ok_inv in Hm as (_ & Hdata & _).
  rewrite (merge_fold_pair A B a b _ _ Ha Hb) in Hdata.
  rewrite Hdata. clear Hdata. destruct (decide (A = B)) as [HAB|HAB].
  - assert (a = b) as <- by eauto using lookup_customer_unique_doc.
    eexists _, _, _, _. simpl. split_and!; try reflexivity.
    all: intros x; rewrite ?elem_of_app, ?elem_of_nil; naive_solver.
  - eexists _, _, _, _. simpl. split_and!; try reflexivity.
    all: intros x; rewrite ?elem_of_app, ?elem_of_nil; naive_solver.
Qed.

End MergePair.

(** ** The example environment meets the two assumptions *)

Lemma Demo_issues_unused_ids : issues_unused_ids Demo.env.
Proof. intros w. apply infinite_is_fresh. Qed.

Lemma Demo_collaborators_succeed : collaborators_succeed Demo.env.
Proof. intros w c. reflexivity. Qed.

(** * The contracts of the methods *)

(** C1 (amended). Merging [[A; B]], both stored, gives a survivor whose
    [tagIds] are the deduplicated union of A's and B's tags (no duplicate, and
    exactly the values of either), and likewise its [companyIds]; its [emails]
    and [phones] are the deduplicated union of A's and B's lists together with
    the primary email, resp. primary phone, of the supplied fields when that
    one is supplied (present and not empty). *)
Theorem mergeCustomers_union env A B a b customerFields w c w' :
  lookup_customer A (customers w) = Some a →
  lookup_customer B (customers w) = Some b →
  mergeCustomers env [A; B] customerFields w = (Ok c, w') →
  ∃ ts cos es ps,
    tagIds (data c) = Some ts ∧ NoDup ts
    ∧ (∀ x, x ∈ ts ↔ x ∈ array_of tagIds a ∨ x ∈ array_of tagIds b)
    ∧ companyIds (data c) = Some cos ∧ NoDup cos
    ∧ (∀ x, x ∈ cos ↔ x ∈ array_of companyIds a ∨ x ∈ array_of companyIds b)
    ∧ emails (data c) = Some es ∧ NoDup es
    ∧ (∀ x, x ∈ es ↔ x ∈ seed (primaryEmail customerFields)
                      ∨ x ∈ array_of emails a ∨ x ∈ array_of emails b)
    ∧ phones (data c) = Some ps ∧ NoDup ps
    ∧ (∀ x, x ∈ ps ↔ x ∈ seed (primaryPhone customerFields)
                      ∨ x ∈ array_of phones a ∨ x ∈ array_of phones b).
Proof.
  intros Ha Hb Hm.
  destruct (mergeCustomers_pair_data env A B a b customerFields w c w' Ha Hb Hm)
    as (ts & cos & es & ps & Ht & Hc & He & Hp & Hts & Hcos & Hes & Hps & _).
  exists (Array_from_Set ts), (Array_from_Set cos),
         (Array_from_Set es), (Array_from_Set ps).
  split_and!; try done; try apply Array_from_Set_NoDup;
    intros x; rewrite Array_from_Set_elem; auto.
Qed.

Lemma mergeCustomers_union_witness :
  ∃ c w',
    mergeCustomers Demo.env ["A"; "B"] (only_primaryEmail "new@x.io") Demo.world
    = (Ok c, w')
    ∧ ∃ ts cos es ps,
        tagIds (data c) = Some ts ∧ NoDup ts
        ∧ (∀ x, x ∈ ts ↔ x ∈ array_of tagIds Demo.A ∨ x ∈ array_of tagIds Demo.B)
        ∧ companyIds (data c) = Some cos ∧ NoDup cos
        ∧ (∀ x, x ∈ cos ↔ x ∈ array_of companyIds Demo.A
                           ∨ x ∈ array_of companyIds Demo.B)
        ∧ emails (data c) = Some es ∧ NoDup es
        ∧ (∀ x, x ∈ es ↔ x ∈ seed (primaryEmail (only_primaryEmail "new@x.io"))
                          ∨ x ∈ array_of emails Demo.A ∨ x ∈ array_of emails Demo.B)
        ∧ phones (data c) = Some ps ∧ NoDup ps
        ∧ (∀ x, x ∈ ps ↔ x ∈ seed (primaryPhone (only_primaryEmail "new@x.io"))
                          ∨ x ∈ array_of phones Demo.A ∨ x ∈ array_of phones Demo.B).
Proof.
  eexists _, _. split; [vm_compute; reflexivity|].
  eapply (mergeCustomers_union Demo.env "A" "B" Demo.A Demo.B
            (only_primaryEmail "new@x.io") Demo.world).
  - reflexivity.
  - reflexivity.
  - vm_compute. reflexivity.
Defined.

(** The example of the specification: tags {t1} and {t1, t2} merge into
    exactly [t1; t2]. *)
Example mergeCustomers_t1_t2 :
  array_of tagIds Demo.A = ["t1"] ∧ array_of tagIds Demo.B = ["t1"; "t2"]
  ∧ ∃ c w', mergeCustomers Demo.env ["A"; "B"] empty_doc Demo.world = (Ok c, w')
            ∧ tagIds (data c) = Some ["t1"; "t2"].
Proof.
  split_and!; [reflexivity..|]. eexists _, _. split; vm_compute; reflexivity.
Qed.

(** C1 as stated fails for [emails]: with a primary email supplied, the
    survivor's emails are not the union of A's and B's emails. *)
Lemma mergeCustomers_emails_beyond_inputs :
  lookup_customer "A" (customers Demo.world) = Some Demo.A
  ∧ lookup_customer "B" (customers Demo.world) = Some Demo.B
  ∧ ∃ c w',
      mergeCustomers Demo.env ["A"; "B"] (only_primaryEmail "new@x.io") Demo.world
      = (Ok c, w')
      ∧ emails (data c) = Some ["new@x.io"; "a2@x.io"; "a@x.io"; "b2@x.io"]
      ∧ ¬ (∀ x, x ∈ ["new@x.io"; "a2@x.io"; "a@x.io"; "b2@x.io"]
                ↔ x ∈ array_of emails Demo.A ∨ x ∈ array_of emails Demo.B).
Proof.
  split_and!; [reflexivity..|]. eexists _, _.
  split_and!; [vm_compute; reflexivity..|].
  intros H. destruct (H "new@x.io") as [Hin _].
  destruct Hin as [Hin|Hin]; [left|..]; vm_compute in Hin;
    repeat (apply elem_of_cons in Hin as [Hin|Hin]; [discriminate|]);
    by apply elem_of_nil in Hin.
Qed.

(** C2. After a successful merge of [[A; B]], both stored: the survivor's
    [integrationId] is B's (the last found record wins); the collection is the
    old one without the documents identified by A or B, plus the survivor, so
    the only document that could still answer to A or B is the survivor itself
    and, its identifier being a new one, [findOne] finds neither A nor B; and
    within the call both removals happen before the survivor is created. *)
Theorem mergeCustomers_removes_inputs_last_integration
    env A B a b customerFields w c w' :
  lookup_customer A (customers w) = Some a →
  lookup_customer B (customers w) = Some b →
  mergeCustomers env [A; B] customerFields w = (Ok c, w') →
  integrationId (data c) = integrationId (data b)
  ∧ customers w' = filter (λ d, _id d ∉ [A; B]) (customers w) ++ [c]
  ∧ (∀ d, d ∈ customers w' → _id d ∈ [A; B] → d = c)
  ∧ (_id c ∉ [A; B] →
       lookup_customer A (customers w') = None
       ∧ lookup_customer B (customers w') = None)
  ∧ ∃ before after,
      trace w' = trace w ++ before ++ DbCreate c :: after
      ∧ DbRemove A ∈ before ∧ DbRemove B ∈ before.
Proof.
  intros Ha Hb Hm.
  destruct (mergeCustomers_pair_data env A B a b customerFields w c w' Ha Hb Hm)
    as (_ & _ & _ & _ & _ & _ & _ & _ & _ & _ & _ & _ & Hint).
  apply mergeCustomers_Ok_inv in Hm as (Hcs & _ & evs1 & evs2 & evs3 & Htr).
  assert (∀ d, d ∈ customers w' → _id d ∈ [A; B] → d = c) as Honly.
  { intros d Hd Hid. rewrite Hcs, elem_of_app in Hd. destruct Hd as [Hd|Hd].
    - by apply list_elem_of_filter in Hd as [Hd _].
    - by apply list_elem_of_singleton in Hd. }
  split_and!; [done..| |].
  - intros Hc.
    assert (∀ id, id ∈ [A; B] → lookup_customer id (customers w') = None) as Hgone.
    { intros id Hin. apply lookup_customer_None. intros d Hd Hid. apply Hc.
      rewrite <- Hid in Hin. by rewrite <- (Honly d Hd Hin). }
    split; apply Hgone; [left | right; left].
  - exists (evs1 ++ merge_events [A; B] (customers w) ++ evs2), evs3.
    split; [by rewrite Htr, <- !app_assoc|].
    split; rewrite !elem_of_app; right; left;
      apply merge_events_removes; eauto; [left | right; left].
Qed.

Lemma mergeCustomers_removes_inputs_witness :
  ∃ c w',
    mergeCustomers Demo.env ["A"; "B"] empty_doc Demo.world = (Ok c, w')
    ∧ integrationId (data c) = integrationId (data Demo.B)
    ∧ customers w' = filter (λ d, _id d ∉ ["A"; "B"]) (customers Demo.world) ++ [c]
    ∧ (∀ d, d ∈ customers w' → _id d ∈ ["A"; "B"] → d = c)
    ∧ (_id c ∉ ["A"; "B"] →
         lookup_customer "A" (customers w') = None
         ∧ lookup_customer "B" (customers w') = None)
    ∧ ∃ before after,
        trace w' = trace Demo.world ++ before ++ DbCreate c :: after
        ∧ DbRemove "A" ∈ before ∧ DbRemove "B" ∈ before.
Proof.
  eexists _, _. split; [vm_compute; reflexivity|].
  eapply (mergeCustomers_removes_inputs_last_integration
            Demo.env "A" "B" Demo.A Demo.B empty_doc Demo.world).
  - reflexivity.
  - reflexivity.
  - vm_compute. reflexivity.
Defined.

(** On the example: the survivor gets the identifier "0" and B's integration,
    and neither A nor B can be found any more. *)
Example mergeCustomers_A_B :
  ∃ c w',
    mergeCustomers Demo.env ["A"; "B"] empty_doc Demo.world = (Ok c, w')
    ∧ _id c = "0" ∧ integrationId (data c) = Some "int-b"
    ∧ customers w' = [c]
    ∧ lookup_customer "A" (customers w') = None
    ∧ lookup_customer "B" (customers w') = None.
Proof. eexists _, _. split_and!; vm_compute; reflexivity. Qed.

(** C9. An input identifier without a stored document is skipped: the turn
    of the loop only looks it up, leaves the accumulators, the integration
    reference and the collection as they are and throws nothing; the loop as
    a whole never throws, and dropping such an identifier from the list
    changes neither the loop variables nor the collection it leaves.  When
    no input identifier has a document and the duplicate check passes, the
    merge (the sibling models succeeding and the store issuing an unused
    identifier) still creates and returns a customer: the supplied fields
    with empty tags and companies, and emails and phones holding only the
    supplied primary ones. *)
Theorem mergeCustomers_skips_missing env :
  (∀ customerId st w,
     lookup_customer customerId (customers w) = None →
     merge_step customerId st w = (Ok st, logged (DbFindOne customerId) w))
  ∧ (∀ customerIds st w, ∃ st' w', merge_loop customerIds st w = (Ok st', w'))
  ∧ (∀ ids1 customerId ids2 st w,
       lookup_customer customerId (customers w) = None →
       fst (merge_loop (ids1 ++ customerId :: ids2) st w)
       = fst (merge_loop (ids1 ++ ids2) st w)
       ∧ customers (snd (merge_loop (ids1 ++ customerId :: ids2) st w))
         = customers (snd (merge_loop (ids1 ++ ids2) st w)))
  ∧ (∀ customerIds customerFields w,
       issues_unused_ids env → collaborators_succeed env →
       (∀ id, id ∈ customerIds → lookup_customer id (customers w) = None) →
       fst (checkDuplication (as_customerFields customerFields)
              (Some (IdList customerIds)) w) = Ok tt →
       ∃ c w',
         mergeCustomers env customerIds customerFields w = (Ok c, w')
         ∧ customers w' = customers w ++ [c]
         ∧ data c
           = set_customFieldsData (customFieldsData (data c))
               (with_merged customerFields [] []
                  (seed (primaryEmail customerFields))
                  (seed (primaryPhone customerFields)))).
Proof.
  split_and!.
  - intros id st w Hnone. unfold merge_step. run. by rewrite Hnone.
  - intros ids st w. rewrite merge_loop_run. eauto.
  - intros ids1 id ids2 st w Hnone. rewrite !merge_loop_run. simpl.
    by rewrite (merge_fold_skip ids1 id ids2 st _ Hnone).
  - intros ids fields w Hids Hcol Hmissing Hok.
    destruct (mergeCustomers_succeeds env ids fields w Hids Hcol Hok)
      as (c & w' & Hm).
    exists c, w'. split; [done|].
    apply mergeCustomers_Ok_inv in Hm as (Hcs & Hdata & _).
    rewrite (merge_fold_all_missing ids _ _ Hmissing) in Hdata. simpl in Hdata.
    split.
    + rewrite Hcs. f_equal. clear -Hmissing.
      induction (customers w) as [|d cs IH]; [done|].
      rewrite filter_cons, decide_True.
      * f_equal. apply IH. intros id Hid.
        specialize (Hmissing id Hid). rewrite lookup_customer_cons in Hmissing.
        by destruct (decide (_id d = id)).
      * intros Hin. specialize (Hmissing _ Hin).
        rewrite lookup_customer_cons, decide_True in Hmissing; done.
    + rewrite Hdata at 1. f_equal. unfold seed.
      by destruct (truthy (primaryEmail fields)),
                  (truthy (primaryPhone fields)).
Qed.

Lemma mergeCustomers_skips_missing_witness :
  ∃ c w',
    mergeCustomers Demo.env ["ghost"; "nobody"] (only_primaryEmail "new@x.io")
      Demo.world = (Ok c, w')
    ∧ customers w' = customers Demo.world ++ [c]
    ∧ data c
      = set_customFieldsData (customFieldsData (data c))
          (with_merged (only_primaryEmail "new@x.io") [] []
             (seed (primaryEmail (only_primaryEmail "new@x.io")))
             (seed (primaryPhone (only_primaryEmail "new@x.io")))).
Proof.
  apply (proj2 (proj2 (proj2 (mergeCustomers_skips_missing Demo.env)))).
  - exact Demo_issues_unused_ids.
  - exact Demo_collaborators_succeed.
  - intros id Hid. vm_compute in Hid.
    repeat (apply elem_of_cons in Hid as [->|Hid]; [reflexivity|]).
    by apply elem_of_nil in Hid.
  - vm_compute. reflexivity.
Defined.

(** The checker on the example collection: the first collision in the order
    twitter, facebook, email, phone is the one reported, after one query;
    excluding A moves on to facebook; excluding both lets the candidate pass. *)
Example checkDuplication_order_example :
  checkDuplication Demo.clash None Demo.world
  = (Thrown (Error "Duplicated twitter"),
     logged (DbFind {| q_id := None; q_cond := TwitterDataId 7 |}) Demo.world)
  ∧ fst (checkDuplication Demo.clash (Some (IdOne "A")) Demo.world)
    = Thrown (Error "Duplicated facebook")
  ∧ fst (checkDuplication Demo.clash (Some (IdList ["A"; "B"])) Demo.world)
    = Ok tt.
Proof. split_and!; vm_compute; reflexivity. Qed.

Lemma checkDuplication_no_identity_fields_witness :
  checkDuplication (as_customerFields empty_doc) None Demo.world
  = (Ok tt, Demo.world)
  ∧ ∀ env doc user msg,
      as_customerFields doc = as_customerFields empty_doc →
      fst (createCustomer env doc user Demo.world) ≠ Thrown (Error msg).
Proof.
  exact (checkDuplication_no_identity_fields
           (as_customerFields empty_doc) None Demo.world
           eq_refl eq_refl eq_refl eq_refl).
Defined.

Lemma mergeCustomers_duplicate_before_mutation_witness :
  let w1 := snd (checkDuplication (as_customerFields (only_primaryEmail "a@x.io"))
                   (Some (IdList ["B"])) Demo.world) in
  mergeCustomers Demo.env ["B"] (only_primaryEmail "a@x.io") Demo.world
  = (Thrown (Error "Duplicated email"), w1)
  ∧ (∃ field, field ∈ ["twitter"; "facebook"; "email"; "phone"]
              ∧ Error "Duplicated email" = Error ("Duplicated " +:+ field))
  ∧ customers w1 = customers Demo.world
  ∧ ∃ evs, trace w1 = trace Demo.world ++ evs ∧ only_finds evs.
Proof.
  intros w1.
  apply (mergeCustomers_duplicate_before_mutation Demo.env ["B"]
           (only_primaryEmail "a@x.io") Demo.world).
  vm_compute. reflexivity.
Defined.

(** [removeCustomer] on the example collection: with every sibling model up,
    A is removed after the four cascades; with Conversations down, the method
    throws after two calls and A is still stored. *)
Example removeCustomer_example :
  removeCustomer Demo.env "A" Demo.world
  = (Ok tt,
     {| customers := [Demo.B];
        trace := [Collaborator (ActivityLogs_removeCustomerActivityLog "A");
                  Collaborator (Conversations_removeCustomerConversations "A");
                  Collaborator (EngageMessages_removeCustomerEngages "A");
                  Collaborator (InternalNotes_removeCustomerInternalNotes "A");
                  DbRemove "A"] |})
  ∧ removeCustomer Demo.env_conversations_down "A" Demo.world
    = (Thrown (CollaboratorError "conversations down"),
       {| customers := [Demo.A; Demo.B];
          trace := [Collaborator (ActivityLogs_removeCustomerActivityLog "A");
                    Collaborator (Conversations_removeCustomerConversations "A")] |}).
Proof. split; vm_compute; reflexivity. Qed.

(** ** createCustomer: the contract *)

(** C7. [createCustomer] first runs the checker on the candidate with no
    exclusion and throws what it throws.  Otherwise it calls
    [Fields.cleanMulti] on the candidate's custom fields, or on the empty
    object when it has none, reads the clock twice and creates the document:
    the document returned is the one appended to the collection; its owner is
    the acting user's identifier when the candidate had no (or an empty)
    owner and a user was given, the candidate's owner otherwise; its custom
    fields are the cleaned ones; its [createdAt] and [modifiedAt] are the two
    clock readings; every other attribute is the candidate's. *)
Theorem createCustomer_contract env doc user w r w1 :
  checkDuplication (as_customerFields doc) None w = (r, w1) →
  let payload := default [] (customFieldsData doc) in
  let w2 := logged (Collaborator (Fields_cleanMulti payload)) w1 in
  let w3 := logged NewDate w2 in
  let w4 := logged NewDate w3 in
  match r, collaborator_throws env w1 (Fields_cleanMulti payload) with
  | Thrown e, _ => createCustomer env doc user w = (Thrown e, w1)
  | Ok _, Some msg =>
      createCustomer env doc user w = (Thrown (CollaboratorError msg), w2)
  | Ok _, None =>
      if bool_decide (newId env w4 ∈ _id <$> customers w)
      then createCustomer env doc user w
           = (Thrown (MongoError "E11000 duplicate key error"), w4)
      else ∃ d,
        createCustomer env doc user w
        = (Ok d, {| customers := customers w ++ [d];
                    trace := trace w4 ++ [DbCreate d] |})
        ∧ _id d = newId env w4
        ∧ createdAt d = Some (now env w2)
        ∧ modifiedAt d = Some (now env w3)
        ∧ customFieldsData (data d) = Some (cleanMulti_value env w1 payload)
        ∧ ownerId (data d)
          = match truthy (ownerId doc), user with
            | None, Some u => Some (Users._id u)
            | _, _ => ownerId doc
            end
        ∧ (∀ u, ownerId doc = None → user = Some u →
             ownerId (data d) = Some (Users._id u))
        ∧ set_ownerId (ownerId doc)
            (set_customFieldsData (customFieldsData doc) (data d)) = doc
  end.
Proof.
  intros Hchk. pose proof (createCustomer_cases env doc user w r w1 Hchk) as H.
  cbv zeta in *. destruct r as [[]|e]; [|done].
  destruct (collaborator_throws env w1 _); [done|].
  destruct (bool_decide _); [done|].
  destruct H as (d & H1 & H2 & H3 & H4 & H5 & H6 & H7 & H8 & _).
  exists d. by split_and!.
Qed.

Lemma createCustomer_contract_witness :
  let w1 := snd (checkDuplication (as_customerFields Demo.ann) None
                   Demo.empty_world) in
  let w2 := logged (Collaborator (Fields_cleanMulti [])) w1 in
  let w3 := logged NewDate w2 in
  let w4 := logged NewDate w3 in
  ∃ d,
    createCustomer Demo.env Demo.ann (Some Demo.user) Demo.empty_world
    = (Ok d, {| customers := [d]; trace := trace w4 ++ [DbCreate d] |})
    ∧ _id d = "0"
    ∧ createdAt d = Some 3%Z
    ∧ modifiedAt d = Some 4%Z
    ∧ customFieldsData (data d) = Some []
    ∧ ownerId (data d) = Some "user-1"
    ∧ (∀ u, ownerId Demo.ann = None → Some Demo.user = Some u →
         ownerId (data d) = Some (Users._id u))
    ∧ set_ownerId (ownerId Demo.ann)
        (set_customFieldsData (customFieldsData Demo.ann) (data d)) = Demo.ann.
Proof.
  intros w1 w2 w3 w4.
  exact (createCustomer_contract Demo.env Demo.ann (Some Demo.user)
           Demo.empty_world (Ok tt) w1 eq_refl).
Defined.

(** ** updateCustomer *)

(** The only [Error] that [updateCustomer] throws is the one of its check. *)
Lemma updateCustomer_Error env id doc w msg :
  fst (updateCustomer env id doc w) = Thrown (Error msg) →
  fst (checkDuplication (as_customerFields doc) (Some (IdOne id)) w)
  = Thrown (Error msg).
Proof.
  unfold updateCustomer.
  unfold mbind at 1, M_bind at 1, bind at 1.
  destruct (checkDuplication _ _ w) as [[[]|e] w1]; [|by intros [= ->]].
  unfold mbind at 1, M_bind at 1, bind at 1.
  destruct (customFieldsData doc) as [payload|].
  - unfold Fields_cleanMulti_call. run. rewrite call_run.
    destruct (collaborator_throws env w1 _); [done|]. simpl.
    unfold new_Date, Customers_update, Customers_findOne. run. done.
  - unfold new_Date, Customers_update, Customers_findOne. run. done.
Qed.

(** With a non-empty identifier excluded, a collision is a collision with
    another document. *)
Lemma collides_other P id cs :
  id ≠ "" → collides P (Some (IdOne id)) cs →
  ∃ d, d ∈ cs ∧ _id d ≠ id ∧ P d.
Proof.
  intros Hid (d & Hd & Hex & HP). exists d. split_and!; [done| |done].
  intros Heq. apply Hex. by split.
Qed.

Lemma checkDuplication_Error_shares doc id w msg :
  id ≠ "" →
  fst (checkDuplication (as_customerFields doc) (Some (IdOne id)) w)
  = Thrown (Error msg) →
  ∃ d, d ∈ customers w ∧ _id d ≠ id ∧ shares_identity doc d.
Proof.
  intros Hid Hthrown.
  destruct (checkDuplication_throws _ _ _ _ Hthrown) as (field & Hfield & [= ->]).
  destruct (checkDuplication_outcome (as_customerFields doc) (Some (IdOne id)) w)
    as (H1 & H2 & H3 & H4 & _).
  unfold shares_identity.
  repeat (apply elem_of_cons in Hfield as [->|Hfield]);
    [| | | |by apply elem_of_nil in Hfield].
  - apply H1 in Hthrown as (t & Ht & Hc).
    apply (collides_other _ _ _ Hid) in Hc as (d & ? & ? & ?). eauto 10.
  - apply H2 in Hthrown as (_ & t & Ht & Hc).
    apply (collides_other _ _ _ Hid) in Hc as (d & ? & ? & ?). eauto 10.
  - apply H3 in Hthrown as (_ & _ & t & Ht & Hc).
    apply (collides_other _ _ _ Hid) in Hc as (d & ? & ? & ?). eauto 10.
  - apply H4 in Hthrown as (_ & _ & _ & t & Ht & Hc).
    apply (collides_other _ _ _ Hid) in Hc as (d & ? & ? & ?). eauto 10.
Qed.

(** C4 (amended). [updateCustomer] runs the checker with the target
    identifier excluded, so (for a non-empty identifier) it throws a
    [Duplicated ...] error only when a document other than the target holds an
    identity value of [doc]; in particular, updating a stored customer with
    its own primary email does not throw such an error, provided no other
    document holds that email as primary or secondary email. *)
Theorem updateCustomer_excludes_itself env id w :
  id ≠ "" →
  (∀ doc msg,
     fst (updateCustomer env id doc w) = Thrown (Error msg) →
     ∃ d, d ∈ customers w ∧ _id d ≠ id ∧ shares_identity doc d)
  ∧ (∀ a e,
       lookup_customer id (customers w) = Some a →
       primaryEmail (data a) = Some e →
       (∀ d, d ∈ customers w → _id d ≠ id → ¬ holds_email e d) →
       ∀ msg,
         fst (updateCustomer env id (only_primaryEmail e) w) ≠ Thrown (Error msg)).
Proof.
  intros Hid.
  assert (∀ doc msg,
     fst (updateCustomer env id doc w) = Thrown (Error msg) →
     ∃ d, d ∈ customers w ∧ _id d ≠ id ∧ shares_identity doc d) as Hgen.
  { intros doc msg Hthrown.
    by apply updateCustomer_Error, checkDuplication_Error_shares in Hthrown. }
  split; [exact Hgen|].
  intros a e _ _ Hfree msg Hthrown.
  apply Hgen in Hthrown as (d & Hd & Hne & Hshare).
  destruct Hshare as [(t & [=] & _)|[(t & [=] & _)|[(e' & He' & Hh)|(p & [=] & _)]]].
  simpl in He'. destruct (decide (e = "")); simplify_eq.
  by apply (Hfree d).
Qed.

Lemma updateCustomer_excludes_itself_witness :
  lookup_customer "B" (customers Demo.world) = Some Demo.B
  ∧ primaryEmail (data Demo.B) = Some "b@x.io"
  ∧ ∀ msg,
      fst (updateCustomer Demo.env "B" (only_primaryEmail "b@x.io") Demo.world)
      ≠ Thrown (Error msg).
Proof.
  split_and!; [reflexivity..|].
  refine (proj2 (updateCustomer_excludes_itself Demo.env "B" Demo.world _)
            Demo.B "b@x.io" eq_refl eq_refl _); [discriminate|].
  intros d Hd Hne Hholds. vm_compute in Hd.
  apply elem_of_cons in Hd as [->|Hd].
  - destruct Hholds as [[=]|(l & [= <-] & Hin)].
    apply list_elem_of_singleton in Hin. discriminate.
  - apply list_elem_of_singleton in Hd as ->. by apply Hne.
Defined.

(** C4 as stated fails: after creating a customer and then a second one
    that lists the first one's primary email among its secondary emails,
    updating the first customer with its own primary email throws. *)
Lemma updateCustomer_own_email_rejected :
  ∃ a w1 b w2,
    createCustomer Demo.env Demo.ann None Demo.empty_world = (Ok a, w1)
    ∧ createCustomer Demo.env Demo.bob None w1 = (Ok b, w2)
    ∧ lookup_customer (_id a) (customers w2) = Some a
    ∧ primaryEmail (data a) = Some "a@x.io"
    ∧ fst (updateCustomer Demo.env (_id a) (only_primaryEmail "a@x.io") w2)
      = Thrown (Error "Duplicated email").
Proof.
  eexists _, _, _, _.
  repeat (split; [vm_compute; reflexivity|]). vm_compute. reflexivity.
Qed.

(** ** addCompany *)

Lemma lookup_customer_update_first id f cs :
  (∀ d, _id (f d) = _id d) →
  lookup_customer id (update_first id f cs) = f <$> lookup_customer id cs.
Proof.
  intros Hf. induction cs as [|d cs IH]; [done|]. simpl.
  rewrite (lookup_customer_cons id d cs).
  destruct (decide (_id d = id)) as [Hd|Hd].
  - by rewrite lookup_customer_cons, decide_True by (by rewrite Hf).
  - by rewrite lookup_customer_cons, decide_False.
Qed.

Lemma lookup_customer_update_first_other id id' f cs :
  (∀ d, _id (f d) = _id d) → id' ≠ id →
  lookup_customer id' (update_first id f cs) = lookup_customer id' cs.
Proof.
  intros Hf Hne. induction cs as [|d cs IH]; [done|]. simpl.
  rewrite (lookup_customer_cons id' d cs).
  destruct (decide (_id d = id)) as [Hd|Hd].
  - rewrite lookup_customer_cons, Hf.
    rewrite !decide_False by congruence. done.
  - rewrite lookup_customer_cons. by destruct (decide (_id d = id')).
Qed.

Lemma addToSet_elem v field x :
  x ∈ addToSet v field ↔ x = v ∨ x ∈ default [] field.
Proof.
  destruct field as [l|]; simpl.
  - destruct (decide (v ∈ l)).
    + naive_solver.
    + rewrite elem_of_app, list_elem_of_singleton. naive_solver.
  - rewrite list_elem_of_singleton, elem_of_nil. naive_solver.
Qed.

Lemma addToSet_NoDup v field :
  NoDup (default [] field) → NoDup (addToSet v field).
Proof.
  destruct field as [l|]; simpl; [|intros _; apply NoDup_singleton].
  intros Hnd. destruct (decide (v ∈ l)); [done|].
  apply NoDup_app. split_and!; [done| |apply NoDup_singleton].
  by intros x Hx ->%list_elem_of_singleton.
Qed.

(** C10. When [Companies.createCompany] does not throw, [addCompany]
    resolves to the company it returned; the customer, when there is one
    with that identifier, gets the company's identifier added to its
    [companyIds] as to a set (present afterwards, nothing else changed, no
    duplicate introduced, the array unchanged when it was there already);
    every other customer is untouched. *)
Theorem addCompany_returns_company env id name website w :
  collaborator_throws env w (Companies_createCompany name website) = None →
  let company := createCompany_value env w name website in
  ∃ w',
    addCompany env id name website w = (Ok company, w')
    ∧ trace w' = trace w ++ [Collaborator (Companies_createCompany name website);
                             DbAddToSetCompanyIds id (Company._id company)]
    ∧ (∀ a, lookup_customer id (customers w) = Some a →
         ∃ a', lookup_customer id (customers w') = Some a'
           ∧ _id a' = _id a
           ∧ companyIds (data a')
             = Some (addToSet (Company._id company) (companyIds (data a)))
           ∧ set_companyIds (array_of companyIds a') (data a) = data a')
    ∧ (∀ xs x, x ∈ addToSet (Company._id company) xs
               ↔ x = Company._id company ∨ x ∈ default [] xs)
    ∧ (∀ xs, NoDup (default [] xs) → NoDup (addToSet (Company._id company) xs))
    ∧ (∀ l, Company._id company ∈ l →
            addToSet (Company._id company) (Some l) = l)
    ∧ (∀ id', id' ≠ id →
         lookup_customer id' (customers w') = lookup_customer id' (customers w)).
Proof.
  intros Hok company. eexists. split_and!.
  - unfold addCompany, Companies_createCompany_call. run. rewrite call_run, Hok.
    simpl. unfold Customers_addToSetCompanyIds. run. reflexivity.
  - simpl. by rewrite <- app_assoc.
  - intros a Ha. simpl. rewrite lookup_customer_update_first by done.
    rewrite Ha. simpl. eexists. split_and!; reflexivity.
  - intros xs x. apply addToSet_elem.
  - intros xs. apply addToSet_NoDup.
  - intros l Hl. simpl. by rewrite decide_True.
  - intros id' Hne. simpl. by apply lookup_customer_update_first_other.
Qed.

Lemma addCompany_returns_company_witness :
  ∃ w',
    addCompany Demo.env "A" "Acme" "acme.io" Demo.world
    = (Ok {| Company._id := "company-1"; Company.name := "Acme";
             Company.website := "acme.io" |}, w')
    ∧ (array_of companyIds <$> lookup_customer "A" (customers w'))
      = Some ["c1"; "company-1"]
    ∧ lookup_customer "B" (customers w') = Some Demo.B.
Proof.
  destruct (addCompany_returns_company Demo.env "A" "Acme" "acme.io" Demo.world
              eq_refl) as (w' & Hrun & _ & Hcustomer & _ & _ & _ & Hothers).
  exists w'. split_and!.
  - exact Hrun.
  - destruct (Hcustomer Demo.A eq_refl) as (a' & -> & _ & Hids & _).
    simpl. unfold array_of. by rewrite Hids.
  - by rewrite Hothers.
Defined.

(** * Further properties of the methods *)

(** ** checkDuplication: exclusions and collections *)

Lemma checkDuplication_result_cases f ex w :
  fst (checkDuplication f ex w) = Ok tt
  ∨ ∃ msg, fst (checkDuplication f ex w) = Thrown (Error msg).
Proof.
  destruct (fst (checkDuplication f ex w)) as [[]|e] eqn:E; [by left|right].
  destruct (checkDuplication_throws f ex w e E) as (field & _ & ->). eauto.
Qed.

(** Passing is kept when fewer documents are stored or more are excluded. *)
Lemma checkDuplication_passes_mono f ex ex' w w' :
  (∀ d, d ∈ customers w' → ¬ excluded ex' d →
        d ∈ customers w ∧ ¬ excluded ex d) →
  fst (checkDuplication f ex w) = Ok tt →
  fst (checkDuplication f ex' w') = Ok tt.
Proof.
  intros Hsub Hok.
  apply (checkDuplication_outcome f ex w) in Hok as (H1 & H2 & H3 & H4).
  apply (checkDuplication_outcome f ex' w').
  assert (∀ P, collides P ex' (customers w') → collides P ex (customers w)) as Hc.
  { intros P (d & Hd & Hex & HP). destruct (Hsub d Hd Hex). by exists d. }
  unfold twitter_duplicated, facebook_duplicated, email_duplicated,
    phone_duplicated in *.
  split_and!; intros (v & Hv & Hcol%Hc); eauto.
Qed.

(** The answer of the checker is decided by which documents it checks. *)
Lemma checkDuplication_same_result f ex ex' w w' :
  (∀ P, collides P ex (customers w) ↔ collides P ex' (customers w')) →
  fst (checkDuplication f ex w) = fst (checkDuplication f ex' w').
Proof.
  intros Hc.
  assert (twitter_duplicated f ex (customers w)
          ↔ twitter_duplicated f ex' (customers w')) as Etw.
  { split; intros (t & Ht & Hcol); exists t; (split; [done|]); by apply Hc. }
  assert (facebook_duplicated f ex (customers w)
          ↔ facebook_duplicated f ex' (customers w')) as Efb.
  { split; intros (t & Ht & Hcol); exists t; (split; [done|]); by apply Hc. }
  assert (email_duplicated f ex (customers w)
          ↔ email_duplicated f ex' (customers w')) as Eem.
  { split; intros (t & Ht & Hcol); exists t; (split; [done|]); by apply Hc. }
  assert (phone_duplicated f ex (customers w)
          ↔ phone_duplicated f ex' (customers w')) as Eph.
  { split; intros (t & Ht & Hcol); exists t; (split; [done|]); by apply Hc. }
  destruct (checkDuplication_outcome f ex w) as (A1 & A2 & A3 & A4 & A5).
  destruct (checkDuplication_outcome f ex' w') as (B1 & B2 & B3 & B4 & B5).
  destruct (checkDuplication_result_cases f ex w) as [Hok|[msg Hmsg]].
  - rewrite Hok. symmetry. apply B5. apply A5 in Hok. tauto.
  - rewrite Hmsg.
    destruct (checkDuplication_throws f ex w _ Hmsg) as (field & Hfield & [= ->]).
    repeat (apply elem_of_cons in Hfield as [->|Hfield]);
      [| | | |by apply elem_of_nil in Hfield].
    + apply A1 in Hmsg. symmetry. apply B1. tauto.
    + apply A2 in Hmsg. symmetry. apply B2. tauto.
    + apply A3 in Hmsg. symmetry. apply B3. tauto.
    + apply A4 in Hmsg. symmetry. apply B4. tauto.
Qed.

(** X1. An exclusion that is an empty string or an empty list excludes
    nothing: the checker answers as with no exclusion at all (for the empty
    string it even issues the same queries). *)
Theorem checkDuplication_empty_exclusion f w :
  checkDuplication f (Some (IdOne "")) w = checkDuplication f None w
  ∧ fst (checkDuplication f (Some (IdList [])) w)
    = fst (checkDuplication f None w).
Proof.
  split; [reflexivity|]. apply checkDuplication_same_result.
  intros P. unfold collides. simpl.
  split; intros (d & Hd & Hex & HP); exists d; split_and!; try done.
  - by intros [].
  - apply not_elem_of_nil.
Qed.

(** X2. Excluding more identifiers, or storing fewer documents, never turns
    a pass of the checker into a failure: a candidate that passes with the
    identifiers [ids] excluded passes with any larger list excluded, one that
    passes with no exclusion passes with any exclusion, and one that passes
    on a collection passes on any collection holding only documents of it. *)
Theorem checkDuplication_pass_is_monotone f w :
  (∀ ids ids',
     ids ⊆ ids' →
     fst (checkDuplication f (Some (IdList ids)) w) = Ok tt →
     fst (checkDuplication f (Some (IdList ids')) w) = Ok tt)
  ∧ (∀ ex,
       fst (checkDuplication f None w) = Ok tt →
       fst (checkDuplication f ex w) = Ok tt)
  ∧ (∀ ex w',
       customers w' ⊆ customers w →
       fst (checkDuplication f ex w) = Ok tt →
       fst (checkDuplication f ex w') = Ok tt).
Proof.
  split_and!.
  - intros ids ids' Hsub. apply checkDuplication_passes_mono.
    intros d Hd Hex. split; [done|]. simpl in *. intros Hin. by apply Hex, Hsub.
  - intros ex. apply checkDuplication_passes_mono.
    intros d Hd _. split; [done|]. by intros [].
  - intros ex w' Hsub. apply checkDuplication_passes_mono.
    intros d Hd Hex. split; [by apply Hsub|done].
Qed.

(** ** createCustomer: what it leaves and what it rejects *)

Lemma truthy_Some o e : truthy o = Some e ↔ o = Some e ∧ e ≠ "".
Proof.
  destruct o as [v|]; simpl; [|naive_solver].
  destruct (decide (v = "")); naive_solver.
Qed.

(** What [createCustomer] does to the collection, in every outcome. *)
Lemma createCustomer_collection env doc user w :
  match fst (createCustomer env doc user w) with
  | Ok d =>
      customers (snd (createCustomer env doc user w)) = customers w ++ [d]
      ∧ _id d ∉ _id <$> customers w
  | Thrown _ => customers (snd (createCustomer env doc user w)) = customers w
  end.
Proof.
  destruct (checkDuplication (as_customerFields doc) None w) as [r w1] eqn:Hchk.
  pose proof (createCustomer_cases env doc user w r w1 Hchk) as H.
  pose proof (checkDuplication_reads (as_customerFields doc) None w) as [Hcs _].
  rewrite Hchk in Hcs. simpl in Hcs. cbv zeta in H.
  destruct r as [[]|e]; simpl in H; [|by rewrite H].
  destruct (collaborator_throws env w1 _); [by rewrite H|].
  destruct (bool_decide _) eqn:Hid; [by rewrite H|].
  destruct H as (d & -> & Hd & _). simpl. split; [done|].
  rewrite Hd. by apply bool_decide_eq_false in Hid.
Qed.

Lemma lookup_customer_app_absent id cs d :
  _id d ≠ id → lookup_customer id (cs ++ [d]) = lookup_customer id cs.
Proof.
  intros Hne. induction cs as [|c cs IH]; simpl.
  - by rewrite lookup_customer_cons, decide_False.
  - rewrite !lookup_customer_cons. by destruct (decide (_id c = id)).
Qed.

Lemma lookup_customer_elem id cs :
  is_Some (lookup_customer id cs) ↔ id ∈ _id <$> cs.
Proof.
  induction cs as [|c cs IH]; simpl.
  - split; [by intros [? [=]]|by intros ?%elem_of_nil].
  - rewrite lookup_customer_cons, elem_of_cons.
    destruct (decide (_id c = id)) as [<-|Hne]; [naive_solver|].
    rewrite IH. naive_solver.
Qed.

(** X3. [createCustomer] never touches a stored document: when it throws,
    the collection is the one before the call; when it returns a document,
    the collection is the old one followed by that document, whose identifier
    no stored document had, so that every customer found before is found
    unchanged afterwards and identifiers stay unique. *)
Theorem createCustomer_keeps_the_collection env doc user w :
  match fst (createCustomer env doc user w) with
  | Ok d =>
      customers (snd (createCustomer env doc user w)) = customers w ++ [d]
      ∧ (_id d ∉ _id <$> customers w)
      ∧ lookup_customer (_id d) (customers (snd (createCustomer env doc user w)))
        = Some d
      ∧ (∀ id a, lookup_customer id (customers w) = Some a →
           lookup_customer id (customers (snd (createCustomer env doc user w)))
           = Some a)
      ∧ (unique_ids (customers w) →
         unique_ids (customers (snd (createCustomer env doc user w))))
  | Thrown _ => customers (snd (createCustomer env doc user w)) = customers w
  end.
Proof.
  pose proof (createCustomer_collection env doc user w) as H.
  destruct (fst (createCustomer env doc user w)) as [d|e]; [|done].
  destruct H as [Hcs Hfresh]. rewrite Hcs. split_and!; [done..| | |].
  - assert (lookup_customer (_id d) (customers w) = None) as Hnone.
    { apply eq_None_not_Some. by rewrite lookup_customer_elem. }
    clear Hcs. induction (customers w) as [|c cs IH]; simpl.
    + by rewrite lookup_customer_cons, decide_True.
    + rewrite lookup_customer_cons in Hnone |- *.
      destruct (decide (_id c = _id d)); [done|].
      apply IH; [|done]. intros Hin. apply Hfresh. simpl. by right.
  - intros id a Ha. rewrite lookup_customer_app_absent; [done|].
    intros <-. apply Hfresh. apply lookup_customer_elem. eauto.
  - unfold unique_ids. rewrite fmap_app. simpl. intros Hnd.
    apply NoDup_app. split_and!; [done| |apply NoDup_singleton].
    by intros x Hx ->%list_elem_of_singleton.
Qed.

(** A stored document that holds an identity value the candidate supplies
    makes the checker, run without exclusion, throw. *)
Lemma checkDuplication_shared_identity doc d w :
  d ∈ customers w → shares_identity doc d →
  ∃ msg, fst (checkDuplication (as_customerFields doc) None w)
         = Thrown (Error msg).
Proof.
  intros Hd Hshare.
  destruct (checkDuplication_result_cases (as_customerFields doc) None w)
    as [Hok|Hthrown]; [|done].
  exfalso.
  apply (checkDuplication_outcome (as_customerFields doc) None w)
    in Hok as (H1 & H2 & H3 & H4).
  assert (∀ P, P d → collides P None (customers w)) as Hc.
  { intros P HP. exists d. split_and!; [done| |done]. by intros []. }
  destruct Hshare as [(t & Ht & Hh)|[(t & Ht & Hh)|[(t & Ht & Hh)|(t & Ht & Hh)]]].
  - apply H1. exists t. eauto.
  - apply H2. exists t. eauto.
  - apply H3. exists t. eauto.
  - apply H4. exists t. eauto.
Qed.

(** X4. Once [createCustomer] has stored a customer, a later candidate that
    supplies an identity value this customer holds (its twitter or facebook
    identifier, or, as primary email or phone, one of its primary or
    secondary emails or phones) is rejected with a [Duplicated ...] error and
    nothing is written; in particular a second customer with the same
    (non-empty) primary email cannot be created. *)
Theorem createCustomer_rejects_shared_identity env doc user w d w' :
  createCustomer env doc user w = (Ok d, w') →
  (∀ env' doc' user',
     shares_identity doc' d →
     ∃ msg,
       fst (createCustomer env' doc' user' w') = Thrown (Error msg)
       ∧ customers (snd (createCustomer env' doc' user' w')) = customers w')
  ∧ (∀ env' doc' user' e,
       truthy (primaryEmail doc) = Some e → primaryEmail doc' = Some e →
       ∃ msg, fst (createCustomer env' doc' user' w') = Thrown (Error msg)).
Proof.
  intros Hcreate.
  assert (d ∈ customers w') as Hd.
  { pose proof (createCustomer_collection env doc user w) as H.
    rewrite Hcreate in H. simpl in H. destruct H as [-> _].
    apply elem_of_app. right. left. }
  assert (∀ env' doc' user',
     shares_identity doc' d →
     ∃ msg,
       fst (createCustomer env' doc' user' w') = Thrown (Error msg)
       ∧ customers (snd (createCustomer env' doc' user' w')) = customers w')
    as Hgen.
  { intros env' doc' user' Hshare.
    destruct (checkDuplication_shared_identity doc' d w' Hd Hshare) as [msg Hmsg].
    destruct (checkDuplication (as_customerFields doc') None w')
      as [r w1] eqn:Hchk. simpl in Hmsg. subst r.
    pose proof (checkDuplication_reads (as_customerFields doc') None w')
      as [Hcs _]. rewrite Hchk in Hcs.
    rewrite (createCustomer_check_fails env' doc' user' w' _ _ Hchk). eauto. }
  split; [exact Hgen|].
  intros env' doc' user' e He He'.
  destruct (Hgen env' doc' user') as (msg & Hmsg & _); [|eauto].
  apply truthy_Some in He as [He Hne].
  right. right. left. exists e. split.
  - apply truthy_Some. by rewrite He'.
  - left.
    destruct (checkDuplication (as_customerFields doc) None w) as [r w1] eqn:Hchk.
    pose proof (createCustomer_cases env doc user w r w1 Hchk) as H.
    cbv zeta in H. rewrite Hcreate in H.
    destruct r as [[]|?]; simpl in H; [|done].
    destruct (collaborator_throws env w1 _); [done|].
    destruct (bool_decide _); [done|].
    destruct H as (d' & [= <- _] & _ & _ & _ & _ & _ & _ & _ & ->).
    rewrite <- He. by destruct (truthy (ownerId doc)), user.
Qed.

Lemma createCustomer_rejects_shared_identity_witness :
  ∃ d w',
    createCustomer Demo.env Demo.ann None Demo.empty_world = (Ok d, w')
    ∧ ∃ msg,
        fst (createCustomer Demo.env (only_primaryEmail "a@x.io")
               (Some Demo.user) w') = Thrown (Error msg).
Proof.
  destruct (createCustomer Demo.env Demo.ann None Demo.empty_world)
    as [[d|e] w'] eqn:H; [|vm_compute in H; discriminate].
  exists d, w'. split; [reflexivity|].
  exact (proj2 (createCustomer_rejects_shared_identity
                  Demo.env Demo.ann None Demo.empty_world d w' H)
           Demo.env (only_primaryEmail "a@x.io") (Some Demo.user) "a@x.io"
           eq_refl eq_refl).
Defined.

(** ** updateCustomer *)

Lemma update_first_absent id f cs :
  lookup_customer id cs = None → update_first id f cs = cs.
Proof.
  induction cs as [|d cs IH]; [done|]. rewrite lookup_customer_cons. simpl.
  destruct (decide (_id d = id)); [done|]. intros H. f_equal. by apply IH.
Qed.

Lemma update_first_ids id f cs :
  (∀ d, _id (f d) = _id d) → _id <$> update_first id f cs = _id <$> cs.
Proof.
  intros Hf. induction cs as [|d cs IH]; [done|]. simpl.
  destruct (decide (_id d = id)); simpl; [by rewrite Hf|by f_equal].
Qed.

Lemma dollar_set_empty old : dollar_set empty_doc old = old.
Proof. by destruct old. Qed.

Section Update.
Context (env : Environment).

(** [updateCustomer] once its check has passed. *)
Lemma updateCustomer_run id doc w w1 :
  checkDuplication (as_customerFields doc) (Some (IdOne id)) w = (Ok tt, w1) →
  let tail (doc' : ICreateCustomerInput) (w2 : World) :=
    let cs' := update_first id
                 (λ d, {| _id := _id d; createdAt := createdAt d;
                          modifiedAt := Some (now env w2);
                          data := dollar_set doc' (data d) |})
                 (customers w) in
    (Ok (lookup_customer id cs'),
     {| customers := cs';
        trace := trace w2 ++ [NewDate; DbUpdate id doc' (now env w2);
                              DbFindOne id] |}) in
  updateCustomer env id doc w
  = match customFieldsData doc with
    | Some payload =>
        let w2 := logged (Collaborator (Fields_cleanMulti payload)) w1 in
        match collaborator_throws env w1 (Fields_cleanMulti payload) with
        | Some msg => (Thrown (CollaboratorError msg), w2)
        | None =>
            tail (set_customFieldsData
                    (Some (cleanMulti_value env w1 payload)) doc) w2
        end
    | None => tail doc w1
    end.
Proof.
  intros Hchk.
  pose proof (checkDuplication_reads (as_customerFields doc)
                (Some (IdOne id)) w) as [Hcs _].
  rewrite Hchk in Hcs. simpl in Hcs. cbv zeta.
  unfold updateCustomer.
  unfold mbind at 1, M_bind at 1, bind at 1. rewrite Hchk.
  unfold mbind at 1, M_bind at 1, bind at 1.
  destruct (customFieldsData doc) as [payload|].
  - unfold Fields_cleanMulti_call. run. rewrite call_run.
    destruct (collaborator_throws env w1 _); [done|]. simpl.
    unfold new_Date, Customers_update, Customers_findOne. run.
    rewrite Hcs, <- !app_assoc. done.
  - unfold new_Date, Customers_update, Customers_findOne. run.
    rewrite Hcs, <- !app_assoc. done.
Qed.

End Update.

(** X5. A successful [updateCustomer] writes [doc'] over the first document
    with the target identifier, where [doc'] is [doc] with its custom fields,
    when it has some, replaced by what [Fields.cleanMulti] returned for them:
    a field present in [doc'] replaces the stored one, an absent field keeps
    it, [modifiedAt] becomes the clock reading taken after the cleaning and
    [_id] and [createdAt] stay; it resolves to that document as stored
    afterwards.  When no document has the identifier it resolves to [None]
    and writes nothing (no error, no insertion).  The other customers are
    found unchanged. *)
Theorem updateCustomer_writes_present_fields env id doc w r w' :
  updateCustomer env id doc w = (Ok r, w') →
  let w1 := snd (checkDuplication (as_customerFields doc) (Some (IdOne id)) w) in
  let w2 := match customFieldsData doc with
            | Some payload => logged (Collaborator (Fields_cleanMulti payload)) w1
            | None => w1
            end in
  ∃ doc' t,
    set_customFieldsData (customFieldsData doc) doc' = doc
    ∧ (customFieldsData doc = None → doc' = doc)
    ∧ r = lookup_customer id (customers w')
    ∧ (∀ a, lookup_customer id (customers w) = Some a →
         r = Some {| _id := id; createdAt := createdAt a;
                     modifiedAt := Some t;
                     data := dollar_set doc' (data a) |})
    ∧ (lookup_customer id (customers w) = None →
         r = None ∧ customers w' = customers w)
    ∧ (∀ id', id' ≠ id →
         lookup_customer id' (customers w') = lookup_customer id' (customers w))
    ∧ length (customers w') = length (customers w)
    ∧ doc' = match customFieldsData doc with
             | Some payload =>
                 set_customFieldsData
                   (Some (cleanMulti_value env w1 payload)) doc
             | None => doc
             end
    ∧ t = now env w2
    ∧ customers w'
      = update_first id
          (λ d, {| _id := _id d; createdAt := createdAt d;
                   modifiedAt := Some t;
                   data := dollar_set doc' (data d) |})
          (customers w)
    ∧ trace w' = trace w2 ++ [NewDate; DbUpdate id doc' t; DbFindOne id].
Proof.
  intros Hrun. cbv zeta.
  destruct (checkDuplication (as_customerFields doc) (Some (IdOne id)) w)
    as [[[]|e] w1] eqn:Hchk.
  2:{ unfold updateCustomer in Hrun. revert Hrun.
      unfold mbind at 1, M_bind at 1, bind at 1. by rewrite Hchk. }
  rewrite (updateCustomer_run env id doc w w1 Hchk) in Hrun. cbv zeta in Hrun.
  cbn [snd].
  assert (∀ doc' w2,
    (Ok (lookup_customer id
           (update_first id
              (λ d, {| _id := _id d; createdAt := createdAt d;
                       modifiedAt := Some (now env w2);
                       data := dollar_set doc' (data d) |}) (customers w))),
     {| customers :=
          update_first id
            (λ d, {| _id := _id d; createdAt := createdAt d;
                     modifiedAt := Some (now env w2);
                     data := dollar_set doc' (data d) |}) (customers w);
        trace := trace w2 ++ [NewDate; DbUpdate id doc' (now env w2);
                              DbFindOne id] |}) = (Ok r, w') →
    (r = lookup_customer id (customers w')
     ∧ (∀ a, lookup_customer id (customers w) = Some a →
          r = Some {| _id := id; createdAt := createdAt a;
                      modifiedAt := Some (now env w2);
                      data := dollar_set doc' (data a) |})
     ∧ (lookup_customer id (customers w) = None →
          r = None ∧ customers w' = customers w)
     ∧ (∀ id', id' ≠ id →
          lookup_customer id' (customers w') = lookup_customer id' (customers w))
     ∧ length (customers w') = length (customers w))
    ∧ customers w'
      = update_first id
          (λ d, {| _id := _id d; createdAt := createdAt d;
                   modifiedAt := Some (now env w2);
                   data := dollar_set doc' (data d) |})
          (customers w)
    ∧ trace w' = trace w2 ++ [NewDate; DbUpdate id doc' (now env w2);
                              DbFindOne id]) as Htail.
  { intros doc' w2 [= <- <-]. simpl. split_and!.
    - done.
    - intros a Ha. rewrite lookup_customer_update_first by done.
      rewrite Ha. simpl. do 2 f_equal.
      by apply lookup_customer_Some in Ha as [_ ->].
    - intros Hnone. by rewrite update_first_absent, Hnone.
    - intros id' Hne. by apply lookup_customer_update_first_other.
    - rewrite <- !(length_fmap _id). f_equal. by apply update_first_ids.
    - done.
    - done. }
  destruct (customFieldsData doc) as [payload|] eqn:Ecf.
  - destruct (collaborator_throws env w1 _); [done|].
    destruct (Htail _ _ Hrun) as ((T1 & T2 & T3 & T4 & T5) & T6 & T7).
    exists (set_customFieldsData (Some (cleanMulti_value env w1 payload)) doc),
           (now env (logged (Collaborator (Fields_cleanMulti payload)) w1)).
    split_and!; try done.
    rewrite <- Ecf. by destruct doc.
  - destruct (Htail _ _ Hrun) as ((T1 & T2 & T3 & T4 & T5) & T6 & T7).
    exists doc, (now env w1).
    split_and!; try done.
    rewrite <- Ecf. by destruct doc.
Qed.

Lemma updateCustomer_writes_present_fields_witness :
  ∃ r w',
    updateCustomer Demo.env "A"
      (set_customFieldsData (Some [("plan", "gold")])
         (Outage.only_firstName "Anna"))
      Demo.world
    = (Ok r, w')
    ∧ (firstName ∘ data <$> r) = Some (Some "Anna")
    ∧ (primaryEmail ∘ data <$> r) = Some (Some "a@x.io")
    ∧ (customFieldsData ∘ data <$> r) = Some (Some [("plan", "gold")])
    ∧ (modifiedAt <$> r) = Some (Some 1%Z)
    ∧ lookup_customer "B" (customers w') = Some Demo.B.
Proof.
  destruct (updateCustomer Demo.env "A"
              (set_customFieldsData (Some [("plan", "gold")])
                 (Outage.only_firstName "Anna")) Demo.world)
    as [[r|e] w'] eqn:H; [|vm_compute in H; discriminate].
  exists r, w'. split; [reflexivity|].
  destruct (updateCustomer_writes_present_fields _ _ _ _ _ _ H)
    as (doc' & t & _ & _ & _ & Hfound & _ & Hothers & _ & Hdoc & Ht & _).
  rewrite (Hfound Demo.A eq_refl), Hdoc, Ht, Hothers by done.
  split_and!; reflexivity.
Defined.

(** X6. An update that supplies no identity value and no custom fields
    never throws and asks nothing of the collection before writing: the
    effects are one clock reading, the update and the final [findOne].  With
    the empty document only [modifiedAt] changes. *)
Theorem updateCustomer_without_identity_fields env id doc w :
  twitterData doc = None → facebookData doc = None →
  truthy (primaryEmail doc) = None → truthy (primaryPhone doc) = None →
  customFieldsData doc = None →
  let cs' := update_first id
               (λ d, {| _id := _id d; createdAt := createdAt d;
                        modifiedAt := Some (now env w);
                        data := dollar_set doc (data d) |})
               (customers w) in
  updateCustomer env id doc w
  = (Ok (lookup_customer id cs'),
     {| customers := cs';
        trace := trace w ++ [NewDate; DbUpdate id doc (now env w);
                             DbFindOne id] |})
  ∧ (doc = empty_doc →
     ∀ a, lookup_customer id (customers w) = Some a →
       lookup_customer id cs'
       = Some {| _id := id; createdAt := createdAt a;
                 modifiedAt := Some (now env w); data := data a |}).
Proof.
  intros H1 H2 H3 H4 H5 cs'.
  assert (checkDuplication (as_customerFields doc) (Some (IdOne id)) w
          = (Ok tt, w)) as Hchk
    by by apply checkDuplication_nothing_to_check.
  split.
  - rewrite (updateCustomer_run env id doc w w Hchk). cbv zeta. by rewrite H5.
  - intros -> a Ha. subst cs'. rewrite lookup_customer_update_first by done.
    rewrite Ha. simpl. rewrite dollar_set_empty.
    by apply lookup_customer_Some in Ha as [_ ->].
Qed.

Lemma updateCustomer_without_identity_fields_witness :
  fst (updateCustomer Demo.env "A" (Outage.only_firstName "Anna") Demo.world)
  = Ok (Some {| _id := "A"; createdAt := Some 0%Z; modifiedAt := Some 0%Z;
                data := dollar_set (Outage.only_firstName "Anna")
                          (data Demo.A) |}).
Proof.
  rewrite (proj1 (updateCustomer_without_identity_fields Demo.env "A"
                    (Outage.only_firstName "Anna") Demo.world
                    eq_refl eq_refl eq_refl eq_refl eq_refl)).
  reflexivity.
Defined.

(** ** updateCompanies, addCompany *)

(** X7. [updateCompanies] never throws and checks nothing: it replaces the
    company identifiers of the first document with the identifier by the
    given list as it is (duplicates included), leaves every other attribute
    and every other customer alone, and resolves to the document as stored
    afterwards; when no document has the identifier it resolves to [None]
    and the collection is unchanged. *)
Theorem updateCompanies_replaces_verbatim id companyIds' w :
  let cs' := update_first id
               (λ d, {| _id := _id d; createdAt := createdAt d;
                        modifiedAt := modifiedAt d;
                        data := set_companyIds companyIds' (data d) |})
               (customers w) in
  updateCompanies id companyIds' w
  = (Ok (lookup_customer id cs'),
     {| customers := cs';
        trace := trace w ++ [DbSetCompanyIds id companyIds'; DbFindOne id] |})
  ∧ (∀ a, lookup_customer id (customers w) = Some a →
       ∃ a', lookup_customer id cs' = Some a'
         ∧ companyIds (data a') = Some companyIds'
         ∧ a' = {| _id := id; createdAt := createdAt a;
                   modifiedAt := modifiedAt a;
                   data := set_companyIds companyIds' (data a) |})
  ∧ (lookup_customer id (customers w) = None →
       lookup_customer id cs' = None ∧ cs' = customers w)
  ∧ (∀ id', id' ≠ id →
       lookup_customer id' cs' = lookup_customer id' (customers w)).
Proof.
  intros cs'. split_and!.
  - unfold updateCompanies, Customers_setCompanyIds, Customers_findOne. run.
    by rewrite <- app_assoc.
  - intros a Ha. subst cs'. rewrite lookup_customer_update_first by done.
    rewrite Ha. simpl. eexists. split_and!; [done..|].
    by apply lookup_customer_Some in Ha as [_ ->].
  - intros Hnone. subst cs'. by rewrite update_first_absent.
  - intros id' Hne. by apply lookup_customer_update_first_other.
Qed.

(** X8. When [Companies.createCompany] throws, [addCompany] throws the same
    exception right after that call and the collection is not written.  When
    it succeeds but no customer has the identifier, the company is returned
    all the same and the collection is unchanged: the company was created
    without being linked to anyone. *)
Theorem addCompany_edge_cases env id name website w :
  (∀ msg,
     collaborator_throws env w (Companies_createCompany name website) = Some msg →
     addCompany env id name website w
     = (Thrown (CollaboratorError msg),
        logged (Collaborator (Companies_createCompany name website)) w))
  ∧ (collaborator_throws env w (Companies_createCompany name website) = None →
     lookup_customer id (customers w) = None →
     fst (addCompany env id name website w)
     = Ok (createCompany_value env w name website)
     ∧ customers (snd (addCompany env id name website w)) = customers w).
Proof.
  split.
  - intros msg Hmsg. unfold addCompany, Companies_createCompany_call. run.
    by rewrite call_run, Hmsg.
  - intros Hok Hnone. unfold addCompany, Companies_createCompany_call. run.
    rewrite call_run, Hok. simpl. unfold Customers_addToSetCompanyIds. run.
    by rewrite update_first_absent.
Qed.

Lemma addCompany_edge_cases_witness :
  addCompany Outage.companies_down "A" "Acme" "acme.io" Demo.world
  = (Thrown (CollaboratorError "companies down"),
     logged (Collaborator (Companies_createCompany "Acme" "acme.io")) Demo.world)
  ∧ fst (addCompany Demo.env "nobody" "Acme" "acme.io" Demo.world)
    = Ok (createCompany_value Demo.env Demo.world "Acme" "acme.io")
  ∧ customers (snd (addCompany Demo.env "nobody" "Acme" "acme.io" Demo.world))
    = customers Demo.world.
Proof.
  split.
  - exact (proj1 (addCompany_edge_cases Outage.companies_down "A" "Acme"
                    "acme.io" Demo.world) "companies down" eq_refl).
  - exact (proj2 (addCompany_edge_cases Demo.env "nobody" "Acme" "acme.io"
                    Demo.world) eq_refl eq_refl).
Defined.

(** ** removeCustomer *)

(** What [removeCustomer] does to the collection, in every outcome. *)
Lemma removeCustomer_collection env customerId w :
  customers (snd (removeCustomer env customerId w))
  = match fst (removeCustomer env customerId w) with
    | Ok _ => filter (λ d, _id d ≠ customerId) (customers w)
    | Thrown _ => customers w
    end.
Proof.
  unfold removeCustomer. run.
  rewrite call_run. destruct (collaborator_throws env _ _); [done|].
  rewrite call_run. destruct (collaborator_throws env _ _); [done|].
  rewrite call_run. destruct (collaborator_throws env _ _); [done|].
  rewrite call_run. destruct (collaborator_throws env _ _); [done|].
  by rewrite Customers_remove_run.
Qed.

(** X9. After a successful [removeCustomer], no document answers to the
    identifier any more and every other customer is found unchanged; an
    identifier that no document had is not an error (the collection is then
    left as it was), so removing the same customer again changes nothing. *)
Theorem removeCustomer_effect env customerId w w' :
  removeCustomer env customerId w = (Ok tt, w') →
  lookup_customer customerId (customers w') = None
  ∧ (∀ id, id ≠ customerId →
       lookup_customer id (customers w') = lookup_customer id (customers w))
  ∧ (lookup_customer customerId (customers w) = None →
       customers w' = customers w)
  ∧ (∀ env' w'', removeCustomer env' customerId w' = (Ok tt, w'') →
       customers w'' = customers w').
Proof.
  intros Hrun.
  assert (∀ env0 w0 w1, removeCustomer env0 customerId w0 = (Ok tt, w1) →
            customers w1 = filter (λ d, _id d ≠ customerId) (customers w0)) as Hf.
  { intros env0 w0 w1 H.
    pose proof (removeCustomer_collection env0 customerId w0) as Hc.
    by rewrite H in Hc. }
  rewrite (Hf _ _ _ Hrun). split_and!.
  - apply lookup_customer_removed.
  - intros id Hne. by apply lookup_customer_removed_other.
  - apply filter_absent.
  - intros env' w'' H. rewrite (Hf _ _ _ H), (Hf _ _ _ Hrun).
    apply filter_absent, lookup_customer_removed.
Qed.

Lemma removeCustomer_effect_witness :
  ∃ w',
    removeCustomer Demo.env "A" Demo.world = (Ok tt, w')
    ∧ lookup_customer "A" (customers w') = None
    ∧ lookup_customer "B" (customers w') = Some Demo.B.
Proof.
  eexists. split; [vm_compute; reflexivity|].
  destruct (removeCustomer_effect Demo.env "A" Demo.world _ eq_refl)
    as (Hgone & Hothers & _).
  split; [exact Hgone|]. by rewrite Hothers.
Defined.

(** ** markCustomerAsActive, markCustomerAsNotActive *)

(** X10. Marking a customer active sets the path [messengerData.isActive]
    to [true] on the first document with the identifier; marking it not
    active sets it to [false] and [messengerData.lastSeenAt] to the clock
    reading.  Both leave [_id], [createdAt], [modifiedAt] and every attribute
    other than [messengerData] as they were, leave the other customers and
    the identifiers of the collection alone, and resolve to the document as
    stored afterwards, or to [None], with the collection unchanged, when no
    document has the identifier. *)
Theorem markCustomer_activity set_path id cs :
  let on := markCustomerAsActive set_path id cs in
  (∀ now,
     let off := markCustomerAsNotActive set_path now id cs in
     (∀ a, lookup_customer id cs = Some a →
        snd off
        = Some {| _id := id; createdAt := createdAt a;
                  modifiedAt := modifiedAt a;
                  data := set_messengerData
                            (set_path "lastSeenAt" (JsDate now)
                               (Some (set_path "isActive" (JsBool false)
                                        (messengerData (data a)))))
                            (data a) |}
        ∧ lookup_customer id (fst off) = snd off)
     ∧ (lookup_customer id cs = None → off = (cs, None))
     ∧ (∀ id', id' ≠ id →
          lookup_customer id' (fst off) = lookup_customer id' cs)
     ∧ _id <$> fst off = _id <$> cs)
  ∧ (∀ a, lookup_customer id cs = Some a →
       snd on
       = Some {| _id := id; createdAt := createdAt a;
                 modifiedAt := modifiedAt a;
                 data := set_messengerData
                           (set_path "isActive" (JsBool true)
                              (messengerData (data a)))
                           (data a) |}
       ∧ lookup_customer id (fst on) = snd on)
  ∧ (lookup_customer id cs = None → on = (cs, None))
  ∧ (∀ id', id' ≠ id → lookup_customer id' (fst on) = lookup_customer id' cs)
  ∧ _id <$> fst on = _id <$> cs.
Proof.
  intros on. subst on. unfold markCustomerAsActive, markCustomerAsNotActive.
  simpl. split_and!.
  - intros now. split_and!.
    + intros a Ha. rewrite lookup_customer_update_first by done.
      rewrite Ha. simpl. split; [|done].
      by destruct (lookup_customer_Some _ _ _ Ha) as [_ <-].
    + intros Hnone. by rewrite update_first_absent, Hnone.
    + intros id' Hne. by apply lookup_customer_update_first_other.
    + by apply update_first_ids.
  - intros a Ha. rewrite lookup_customer_update_first by done.
    rewrite Ha. simpl. split; [|done].
    by destruct (lookup_customer_Some _ _ _ Ha) as [_ <-].
  - intros Hnone. by rewrite update_first_absent, Hnone.
  - intros id' Hne. by apply lookup_customer_update_first_other.
  - by apply update_first_ids.
Qed.

(** On the example collection, with nested objects as association lists. *)
Example markCustomer_activity_example :
  (messengerData ∘ data <$> snd (markCustomerAsActive Outage.set_path "A"
                                   (customers Demo.world)))
  = Some (Some [("isActive", "true")])
  ∧ (messengerData ∘ data <$> snd (markCustomerAsNotActive Outage.set_path 9%Z "A"
                                     (customers Demo.world)))
    = Some (Some [("lastSeenAt", "date"); ("isActive", "false")])
  ∧ markCustomerAsActive Outage.set_path "nobody" (customers Demo.world)
    = (customers Demo.world, None).
Proof. split_and!; vm_compute; reflexivity. Qed.

(** ** mergeCustomers on any list of identifiers *)

Lemma lookup_customer_filter_other id id' cs :
  lookup_customer id' (filter (λ d, _id d ≠ id) cs)
  = if decide (id' = id) then None else lookup_customer id' cs.
Proof.
  destruct (decide (id' = id)) as [->|Hne].
  - apply lookup_customer_removed.
  - by apply lookup_customer_removed_other.
Qed.

Lemma lookup_customer_remaining (ids : list string) id cs :
  id ∉ ids →
  lookup_customer id (filter (λ d, _id d ∉ ids) cs) = lookup_customer id cs.
Proof.
  intros Hid. induction cs as [|d cs IH]; [done|].
  rewrite filter_cons, (lookup_customer_cons id d cs).
  destruct (decide (_id d ∉ ids)) as [Hd|Hd].
  - rewrite lookup_customer_cons. by destruct (decide (_id d = id)).
  - destruct (decide (_id d = id)) as [Heq|]; [|done].
    exfalso. apply Hd. by rewrite Heq.
Qed.

Lemma merge_fold_app ids1 ids2 st cs :
  merge_fold (ids1 ++ ids2) st cs
  = merge_fold ids2 (fst (merge_fold ids1 st cs)) (snd (merge_fold ids1 st cs)).
Proof.
  revert st cs. induction ids1 as [|id ids1 IH]; intros st cs; simpl; [done|].
  destruct (lookup_customer id cs); apply IH.
Qed.

(** An accumulator of the loop holds what it held before plus the array of
    every input identifier's document. *)
Lemma merge_fold_accumulates (get : MergeState → list string)
    (field : ICreateCustomerInput → option (list string)) ids st cs x :
  (∀ obj st', get (absorb obj st') = get st' ++ array_of field obj) →
  x ∈ get (fst (merge_fold ids st cs))
  ↔ x ∈ get st
    ∨ ∃ id d, id ∈ ids ∧ lookup_customer id cs = Some d ∧ x ∈ array_of field d.
Proof.
  intros Hget. revert st cs.
  induction ids as [|i ids IH]; intros st cs; simpl.
  - split; [by left|]. intros [?|(id & d & Hin & _)]; [done|].
    by apply elem_of_nil in Hin.
  - destruct (lookup_customer i cs) as [obj|] eqn:E; rewrite IH.
    + rewrite Hget, elem_of_app. split.
      * intros [[Hx|Hx]|(id & d & Hin & Hl & Hx)].
        -- by left.
        -- right. exists i, obj. split_and!; [left|done..].
        -- right. rewrite lookup_customer_filter_other in Hl.
           destruct (decide (id = i)); [done|].
           exists id, d. split_and!; [by right|done..].
      * intros [Hx|(id & d & Hin & Hl & Hx)]; [by left; left|].
        destruct (decide (id = i)) as [->|Hne].
        -- left. right. congruence.
        -- right. exists id, d. apply elem_of_cons in Hin as [?|Hin]; [done|].
           split_and!; [done| |done].
           by rewrite lookup_customer_filter_other, decide_False.
    + split.
      * intros [Hx|(id & d & Hin & Hl & Hx)]; [by left|].
        right. exists id, d. split_and!; [by right|done..].
      * intros [Hx|(id & d & Hin & Hl & Hx)]; [by left|].
        right. exists id, d. apply elem_of_cons in Hin as [->|Hin]; [congruence|].
        done.
Qed.

(** The loop leaves the integration reference of the last input identifier
    when that one has a document and does not occur earlier in the list. *)
Lemma merge_fold_last_integration pre B b st cs :
  B ∉ pre → lookup_customer B cs = Some b →
  integrationId (m_customerFields (fst (merge_fold (pre ++ [B]) st cs)))
  = integrationId (data b).
Proof.
  intros Hpre Hb. rewrite merge_fold_app, merge_fold_remaining. simpl.
  by rewrite lookup_customer_remaining, Hb.
Qed.

(** X11. For any list of input identifiers, a successful merge gives a
    survivor whose [tagIds] and [companyIds] have no duplicate and hold
    exactly the values found in the documents of the input identifiers, and
    whose [emails] and [phones] have no duplicate and hold exactly those
    values together with the supplied primary email, resp. phone. *)
Theorem mergeCustomers_union_of_all env customerIds customerFields w c w' :
  mergeCustomers env customerIds customerFields w = (Ok c, w') →
  let from (field : ICreateCustomerInput → option (list string)) (x : string) :=
    ∃ id d, id ∈ customerIds ∧ lookup_customer id (customers w) = Some d
            ∧ x ∈ array_of field d in
  ∃ ts cos es ps,
    tagIds (data c) = Some ts ∧ NoDup ts ∧ (∀ x, x ∈ ts ↔ from tagIds x)
    ∧ companyIds (data c) = Some cos ∧ NoDup cos
    ∧ (∀ x, x ∈ cos ↔ from companyIds x)
    ∧ emails (data c) = Some es ∧ NoDup es
    ∧ (∀ x, x ∈ es ↔ x ∈ seed (primaryEmail customerFields) ∨ from emails x)
    ∧ phones (data c) = Some ps ∧ NoDup ps
    ∧ (∀ x, x ∈ ps ↔ x ∈ seed (primaryPhone customerFields) ∨ from phones x).
Proof.
  intros Hm from.
  apply mergeCustomers_Ok_inv in Hm as (_ & Hdata & _). rewrite Hdata.
  eexists _, _, _, _. simpl.
  split_and!; try reflexivity; try apply Array_from_Set_NoDup;
    intros x; rewrite Array_from_Set_elem.
  - rewrite (merge_fold_accumulates m_tagIds tagIds) by done. simpl.
    rewrite elem_of_nil. naive_solver.
  - rewrite (merge_fold_accumulates m_companyIds companyIds) by done. simpl.
    rewrite elem_of_nil. naive_solver.
  - by rewrite (merge_fold_accumulates m_emails emails) by done.
  - by rewrite (merge_fold_accumulates m_phones phones) by done.
Qed.

Lemma mergeCustomers_union_of_all_witness :
  ∃ c w',
    mergeCustomers Demo.env ["B"; "ghost"; "A"; "B"] empty_doc Demo.world
    = (Ok c, w')
    ∧ ∃ ts, tagIds (data c) = Some ts ∧ NoDup ts ∧ "t1" ∈ ts ∧ "t2" ∈ ts.
Proof.
  destruct (mergeCustomers Demo.env ["B"; "ghost"; "A"; "B"] empty_doc Demo.world)
    as [[c|e] w'] eqn:H; [|vm_compute in H; discriminate].
  exists c, w'. split; [reflexivity|].
  destruct (mergeCustomers_union_of_all _ _ _ _ _ _ H)
    as (ts & _ & _ & _ & Hts & Hnd & Hin & _).
  exists ts. split_and!; [done..| |].
  - apply Hin. exists "A", Demo.A. split_and!; [|reflexivity|left].
    right. right. left.
  - apply Hin. exists "B", Demo.B. split_and!; [left|reflexivity|].
    right. left.
Defined.

(** X12. For any list of input identifiers ending in an identifier that has
    a document and does not occur earlier in the list, the survivor of a
    successful merge carries that document's [integrationId], whatever the
    supplied fields and the earlier records say. *)
Theorem mergeCustomers_last_found_integration
    env earlier B b customerFields w c w' :
  B ∉ earlier →
  lookup_customer B (customers w) = Some b →
  mergeCustomers env (earlier ++ [B]) customerFields w = (Ok c, w') →
  integrationId (data c) = integrationId (data b).
Proof.
  intros Hpre Hb Hm.
  apply mergeCustomers_Ok_inv in Hm as (_ & Hdata & _). rewrite Hdata. simpl.
  by apply merge_fold_last_integration.
Qed.

Lemma mergeCustomers_last_found_integration_witness :
  ∃ c w',
    mergeCustomers Demo.env (["B"; "ghost"] ++ ["A"])
      (set_integrationId (Some "supplied") empty_doc) Demo.world = (Ok c, w')
    ∧ integrationId (data c) = integrationId (data Demo.A).
Proof.
  destruct (mergeCustomers Demo.env (["B"; "ghost"] ++ ["A"])
              (set_integrationId (Some "supplied") empty_doc) Demo.world)
    as [[c|e] w'] eqn:H; [|vm_compute in H; discriminate].
  exists c, w'. split; [reflexivity|].
  apply (mergeCustomers_last_found_integration Demo.env ["B"; "ghost"] "A"
           Demo.A (set_integrationId (Some "supplied") empty_doc)
           Demo.world c w'); [|reflexivity|exact H].
  intros Hin. repeat (apply elem_of_cons in Hin as [?|Hin]; [discriminate|]).
  by apply elem_of_nil in Hin.
Defined.

(** ** mergeCustomers: every way it can end *)

Section MergeOutcomes.
Context (env : Environment).

(** After a passed check, the merge ends where its [createCustomer] ends
    when that one throws, and that exception is never one of the checker;
    otherwise the survivor is stored and the four notifications follow. *)
Lemma mergeCustomers_after_check customerIds customerFields w w1 :
  checkDuplication (as_customerFields customerFields)
    (Some (IdList customerIds)) w = (Ok tt, w1) →
  let remaining := filter (λ d, _id d ∉ customerIds) (customers w) in
  let r := fst (mergeCustomers env customerIds customerFields w) in
  let w' := snd (mergeCustomers env customerIds customerFields w) in
  match r with
  | Ok c =>
      customers w' = remaining ++ [c]
      ∧ (_id c ∉ _id <$> remaining)
      ∧ ∃ evs,
          trace w'
          = trace w ++ evs
            ++ [DbCreate c;
                Collaborator (ActivityLogs_changeCustomer (_id c) customerIds);
                Collaborator (Conversations_changeCustomer (_id c) customerIds);
                Collaborator (EngageMessages_changeCustomer (_id c) customerIds);
                Collaborator (InternalNotes_changeCustomer (_id c) customerIds)]
  | Thrown e =>
      (∃ msg, e = CollaboratorError msg ∨ e = MongoError msg)
      ∧ (customers w' = remaining
         ∨ ∃ c, customers w' = remaining ++ [c]
                ∧ (_id c ∉ _id <$> remaining))
  end.
Proof.
  intros Hchk remaining r w'. subst r w'.
  pose proof (checkDuplication_reads (as_customerFields customerFields)
                (Some (IdList customerIds)) w) as (_ & evs1 & Hevs1 & _).
  rewrite Hchk in Hevs1. simpl in Hevs1.
  rewrite (mergeCustomers_run env _ _ _ _ Hchk). cbv zeta.
  set (st := fst (merge_fold customerIds (merge_init customerFields) (customers w))).
  set (w2 := {| customers := filter (λ d, _id d ∉ customerIds) (customers w);
                trace := trace w1 ++ merge_events customerIds (customers w) |}).
  set (doc := with_merged _ _ _ _ _).
  pose proof (createCustomer_collection env doc None w2) as Hcol.
  destruct (createCustomer env doc None w2) as [[c|e] w3] eqn:Hc; simpl in Hcol.
  - destruct Hcol as [Hcs Hfresh].
    apply createCustomer_Ok_inv in Hc as (_ & _ & evs2 & Hevs2).
    rewrite notify_run. cbv zeta.
    destruct (collaborator_throws env w3 _); simpl;
      [split; [eauto|right; eauto]|].
    destruct (collaborator_throws env _ _); simpl;
      [split; [eauto|right; eauto]|].
    destruct (collaborator_throws env _ _); simpl;
      [split; [eauto|right; eauto]|].
    destruct (collaborator_throws env _ _); simpl;
      [split; [eauto|right; eauto]|].
    split; [done|]. split; [done|].
    exists (evs1 ++ merge_events customerIds (customers w) ++ evs2).
    rewrite Hevs2. simpl. rewrite Hevs1, <- !app_assoc. reflexivity.
  - simpl. split; [|by left].
    destruct (checkDuplication (as_customerFields doc) None w2) as [r2 w2'] eqn:Hchk2.
    assert (r2 = Ok tt) as ->.
    { change r2 with (fst (r2, w2')). rewrite <- Hchk2.
      apply (checkDuplication_after_removal _ customerIds w); [|done].
      change (as_customerFields doc) with (as_customerFields (m_customerFields st)).
      unfold st. rewrite merge_fold_identity. simpl. by rewrite Hchk. }
    pose proof (createCustomer_cases env doc None w2 _ _ Hchk2) as H.
    cbv zeta in H. rewrite Hc in H.
    destruct (collaborator_throws env w2' _); [injection H as -> _; eauto|].
    destruct (bool_decide _); [injection H as -> _; eauto|].
    by destruct H as (d & [=] & _).
Qed.

End MergeOutcomes.

(** X13. A successful merge ends by telling the four sibling models, in the
    order ActivityLogs, Conversations, EngageMessages, InternalNotes and
    right after the survivor is created, that the survivor's identifier
    replaces the input identifiers: each call carries the survivor's
    identifier and the whole input list as given, identifiers without a
    document and repetitions included. *)
Theorem mergeCustomers_notifies_siblings env customerIds customerFields w c w' :
  mergeCustomers env customerIds customerFields w = (Ok c, w') →
  ∃ evs,
    trace w'
    = trace w ++ evs
      ++ [DbCreate c;
          Collaborator (ActivityLogs_changeCustomer (_id c) customerIds);
          Collaborator (Conversations_changeCustomer (_id c) customerIds);
          Collaborator (EngageMessages_changeCustomer (_id c) customerIds);
          Collaborator (InternalNotes_changeCustomer (_id c) customerIds)].
Proof.
  intros Hm.
  destruct (checkDuplication (as_customerFields customerFields)
              (Some (IdList customerIds)) w) as [[[]|e] w1] eqn:Hchk.
  - pose proof (mergeCustomers_after_check env _ _ _ _ Hchk) as H.
    cbv zeta in H. rewrite Hm in H. simpl in H. by destruct H as (_ & _ & H).
  - unfold mergeCustomers in Hm. revert Hm.
    unfold mbind at 1, M_bind at 1, bind at 1. by rewrite Hchk.
Qed.

Lemma mergeCustomers_notifies_siblings_witness :
  ∃ c w' evs,
    mergeCustomers Demo.env ["A"; "ghost"; "A"] empty_doc Demo.world = (Ok c, w')
    ∧ trace w'
      = trace Demo.world ++ evs
        ++ [DbCreate c;
            Collaborator (ActivityLogs_changeCustomer (_id c) ["A"; "ghost"; "A"]);
            Collaborator (Conversations_changeCustomer (_id c) ["A"; "ghost"; "A"]);
            Collaborator (EngageMessages_changeCustomer (_id c) ["A"; "ghost"; "A"]);
            Collaborator (InternalNotes_changeCustomer (_id c) ["A"; "ghost"; "A"])].
Proof.
  destruct (mergeCustomers Demo.env ["A"; "ghost"; "A"] empty_doc Demo.world)
    as [[c|e] w'] eqn:H; [|vm_compute in H; discriminate].
  destruct (mergeCustomers_notifies_siblings _ _ _ _ _ _ H) as [evs Hevs].
  by exists c, w', evs.
Defined.



Lemma merge_fold_customFieldsData customerIds st cs :
  customFieldsData (m_customerFields (fst (merge_fold customerIds st cs)))
  = customFieldsData (m_customerFields st).
Proof.
  revert st cs. induction customerIds as [|id rest IH]; intros st cs; simpl; [done|].
  destruct (lookup_customer id cs); by rewrite IH.
Qed.

(** X15. No rollback: when the duplicate check passes and the call of
    [Fields.cleanMulti] that [createCustomer] then makes (on the supplied
    custom fields, or on the empty object, in the world reached after the
    removals and the second check) throws, the merge throws that exception
    right after that call, with every input record already removed and no
    survivor created. *)
Theorem mergeCustomers_does_not_roll_back env customerIds customerFields w msg :
  let w1 := snd (checkDuplication (as_customerFields customerFields)
                   (Some (IdList customerIds)) w) in
  let w2 := {| customers := filter (λ d, _id d ∉ customerIds) (customers w);
               trace := trace w1 ++ merge_events customerIds (customers w) |} in
  let w3 := snd (checkDuplication (as_customerFields customerFields) None w2) in
  let payload := default [] (customFieldsData customerFields) in
  fst (checkDuplication (as_customerFields customerFields)
         (Some (IdList customerIds)) w) = Ok tt →
  collaborator_throws env w3 (Fields_cleanMulti payload) = Some msg →
  fst (mergeCustomers env customerIds customerFields w)
  = Thrown (CollaboratorError msg)
  ∧ customers (snd (mergeCustomers env customerIds customerFields w))
    = filter (λ d, _id d ∉ customerIds) (customers w)
  ∧ (∀ id, id ∈ customerIds →
       lookup_customer id
         (customers (snd (mergeCustomers env customerIds customerFields w)))
       = None)
  ∧ mergeCustomers env customerIds customerFields w
    = (Thrown (CollaboratorError msg),
       logged (Collaborator (Fields_cleanMulti payload)) w3).
Proof.
  intros w1 w2 w3 payload Hok Hdown.
  assert (mergeCustomers env customerIds customerFields w
          = (Thrown (CollaboratorError msg),
             logged (Collaborator (Fields_cleanMulti payload)) w3)) as Hrun.
  { subst w3 w2 w1 payload.
    destruct (checkDuplication (as_customerFields customerFields)
                (Some (IdList customerIds)) w) as [r w1] eqn:Hchk.
    simpl in Hok. subst r. cbn [snd] in *.
    rewrite (mergeCustomers_run env _ _ _ _ Hchk). cbv zeta.
    set (st := fst (merge_fold customerIds (merge_init customerFields)
                      (customers w))).
    set (w2 := {| customers := filter (λ d, _id d ∉ customerIds) (customers w);
                  trace := trace w1 ++ merge_events customerIds (customers w) |})
      in *.
    set (doc := with_merged _ _ _ _ _).
    assert (as_customerFields doc = as_customerFields customerFields) as Hid.
    { change (as_customerFields doc)
        with (as_customerFields (m_customerFields st)).
      unfold st. by rewrite merge_fold_identity. }
    assert (customFieldsData doc = customFieldsData customerFields) as Hpay.
    { change (customFieldsData doc)
        with (customFieldsData (m_customerFields st)).
      unfold st. by rewrite merge_fold_customFieldsData. }
    destruct (checkDuplication (as_customerFields doc) None w2)
      as [r2 w2'] eqn:Hchk2.
    assert (r2 = Ok tt) as ->.
    { change r2 with (fst (r2, w2')). rewrite <- Hchk2, Hid.
      apply (checkDuplication_after_removal _ customerIds w); [|done].
      by rewrite Hchk. }
    pose proof (createCustomer_cases env doc None w2 _ _ Hchk2) as H.
    cbv zeta in H. rewrite Hpay in H.
    rewrite Hid in Hchk2. rewrite Hchk2 in Hdown. cbn [snd] in Hdown.
    rewrite Hdown in H. rewrite H. by rewrite Hchk2. }
  rewrite Hrun. cbn [fst snd].
  assert (customers w3 = filter (λ d, _id d ∉ customerIds) (customers w)) as Hcs.
  { subst w3.
    by destruct (checkDuplication_reads (as_customerFields customerFields)
                   None w2) as [-> _]. }
  split_and!; [done|exact Hcs| |done].
  intros id Hid. simpl. rewrite Hcs. apply lookup_customer_None.
  intros d Hd Heq. apply list_elem_of_filter in Hd as [Hd _].
  apply Hd. by rewrite Heq.
Qed.

Lemma mergeCustomers_does_not_roll_back_witness :
  collaborator_throws Outage.fields_down_on_empty Demo.world
    (Fields_cleanMulti [("plan", "gold")]) = None
  ∧ fst (mergeCustomers Outage.fields_down_on_empty ["A"; "B"] empty_doc
           Demo.world)
    = Thrown (CollaboratorError "nothing to clean")
  ∧ customers (snd (mergeCustomers Outage.fields_down_on_empty ["A"; "B"]
                      empty_doc Demo.world))
    = filter (λ d, _id d ∉ ["A"; "B"]) (customers Demo.world)
  ∧ ∀ id, id ∈ ["A"; "B"] →
      lookup_customer id
        (customers (snd (mergeCustomers Outage.fields_down_on_empty ["A"; "B"]
                           empty_doc Demo.world)))
      = None.
Proof.
  split; [reflexivity|].
  destruct (mergeCustomers_does_not_roll_back Outage.fields_down_on_empty
              ["A"; "B"] empty_doc Demo.world "nothing to clean")
    as (H1 & H2 & H3 & _).
  - vm_compute. reflexivity.
  - vm_compute. reflexivity.
  - by split_and!.
Defined.

(** ** The unique index on [_id] is kept *)

Lemma unique_ids_filter (P : ICustomerDocument → Prop)
    `{!∀ d, Decision (P d)} cs :
  unique_ids cs → unique_ids (filter P cs).
Proof.
  unfold unique_ids. intros Hnd. eapply sublist_NoDup; [exact Hnd|].
  apply fmap_sublist, sublist_filter.
Qed.

Lemma unique_ids_snoc cs d :
  unique_ids cs → (_id d ∉ _id <$> cs) → unique_ids (cs ++ [d]).
Proof.
  unfold unique_ids. rewrite fmap_app. simpl. intros Hnd Hd.
  apply NoDup_app. split_and!; [done| |apply NoDup_singleton].
  by intros x Hx ->%list_elem_of_singleton.
Qed.

Lemma unique_ids_update_first id f cs :
  (∀ d, _id (f d) = _id d) → unique_ids cs → unique_ids (update_first id f cs).
Proof. unfold unique_ids. intros Hf. by rewrite update_first_ids. Qed.

(** The identifiers in the collection after [updateCustomer], whatever the
    outcome. *)
Lemma updateCustomer_ids env id doc w :
  _id <$> customers (snd (updateCustomer env id doc w)) = _id <$> customers w.
Proof.
  destruct (checkDuplication (as_customerFields doc) (Some (IdOne id)) w)
    as [[[]|e] w1] eqn:Hchk.
  - pose proof (checkDuplication_reads (as_customerFields doc)
                  (Some (IdOne id)) w) as [Hcs _].
    rewrite Hchk in Hcs. simpl in Hcs.
    rewrite (updateCustomer_run env id doc w w1 Hchk). cbv zeta.
    destruct (customFieldsData doc) as [payload|].
    + destruct (collaborator_throws env w1 _); simpl; [by rewrite Hcs|].
      by apply update_first_ids.
    + simpl. by apply update_first_ids.
  - pose proof (checkDuplication_reads (as_customerFields doc)
                  (Some (IdOne id)) w) as [Hcs _].
    rewrite Hchk in Hcs. simpl in Hcs.
    unfold updateCustomer. unfold mbind at 1, M_bind at 1, bind at 1.
    rewrite Hchk. simpl. by rewrite Hcs.
Qed.

Lemma addCompany_ids env id name website w :
  _id <$> customers (snd (addCompany env id name website w)) = _id <$> customers w.
Proof.
  unfold addCompany, Companies_createCompany_call. run. rewrite call_run.
  destruct (collaborator_throws env w _); simpl; [done|].
  unfold Customers_addToSetCompanyIds. run. by apply update_first_ids.
Qed.

Lemma mergeCustomers_unique_ids env customerIds customerFields w :
  unique_ids (customers w) →
  unique_ids (customers (snd (mergeCustomers env customerIds customerFields w))).
Proof.
  intros Hnd.
  destruct (checkDuplication (as_customerFields customerFields)
              (Some (IdList customerIds)) w) as [[[]|e] w1] eqn:Hchk.
  - pose proof (mergeCustomers_after_check env _ _ _ _ Hchk) as H.
    cbv zeta in H.
    pose proof (unique_ids_filter (λ d, _id d ∉ customerIds) _ Hnd) as Hrem.
    destruct (mergeCustomers env customerIds customerFields w) as [[c|e] w'];
      simpl in *.
    + destruct H as (-> & Hc & _). by apply unique_ids_snoc.
    + destruct H as [_ [->|(c & -> & Hc)]]; [done|by apply unique_ids_snoc].
  - pose proof (checkDuplication_reads (as_customerFields customerFields)
                  (Some (IdList customerIds)) w) as [Hcs _].
    rewrite Hchk in Hcs. simpl in Hcs.
    unfold mergeCustomers. unfold mbind at 1, M_bind at 1, bind at 1.
    rewrite Hchk. simpl. by rewrite Hcs.
Qed.

(** X16. Every method keeps the identifiers of the collection pairwise
    distinct, whatever its outcome (also when it throws half-way):
    [createCustomer], [updateCustomer], [updateCompanies], [addCompany],
    [removeCustomer], [mergeCustomers], [markCustomerAsActive] and
    [markCustomerAsNotActive]; and the methods that only update leave the
    list of identifiers as it is. *)
Theorem methods_keep_ids_unique env w :
  unique_ids (customers w) →
  (∀ doc user, unique_ids (customers (snd (createCustomer env doc user w))))
  ∧ (∀ id doc,
       _id <$> customers (snd (updateCustomer env id doc w)) = _id <$> customers w
       ∧ unique_ids (customers (snd (updateCustomer env id doc w))))
  ∧ (∀ id companyIds',
       _id <$> customers (snd (updateCompanies id companyIds' w))
       = _id <$> customers w
       ∧ unique_ids (customers (snd (updateCompanies id companyIds' w))))
  ∧ (∀ id name website,
       _id <$> customers (snd (addCompany env id name website w))
       = _id <$> customers w
       ∧ unique_ids (customers (snd (addCompany env id name website w))))
  ∧ (∀ id, unique_ids (customers (snd (removeCustomer env id w))))
  ∧ (∀ customerIds customerFields,
       unique_ids (customers (snd (mergeCustomers env customerIds
                                     customerFields w))))
  ∧ (∀ set_path id,
       unique_ids (fst (markCustomerAsActive set_path id (customers w))))
  ∧ (∀ set_path now id,
       unique_ids (fst (markCustomerAsNotActive set_path now id (customers w)))).
Proof.
  intros Hnd. split_and!.
  - intros doc user.
    pose proof (createCustomer_collection env doc user w) as H.
    destruct (fst (createCustomer env doc user w)).
    + destruct H as [-> Hfresh]. by apply unique_ids_snoc.
    + by rewrite H.
  - intros id doc. split; [apply updateCustomer_ids|].
    unfold unique_ids. by rewrite updateCustomer_ids.
  - intros id l.
    assert (_id <$> customers (snd (updateCompanies id l w)) = _id <$> customers w)
      as Hids by by apply update_first_ids.
    split; [done|]. unfold unique_ids. by rewrite Hids.
  - intros id name website. split; [apply addCompany_ids|].
    unfold unique_ids. by rewrite addCompany_ids.
  - intros id. rewrite removeCustomer_collection.
    destruct (fst (removeCustomer env id w)); [|done].
    by apply unique_ids_filter.
  - intros ids fields. by apply mergeCustomers_unique_ids.
  - intros set_path id. by apply unique_ids_update_first.
  - intros set_path now id. by apply unique_ids_update_first.
Qed.

Lemma methods_keep_ids_unique_witness :
  unique_ids (customers Demo.world)
  ∧ unique_ids (customers (snd (mergeCustomers Demo.env ["A"; "B"] empty_doc
                                  Demo.world)))
  ∧ unique_ids (customers (snd (createCustomer Demo.env Demo.ann None
                                  Demo.world))).
Proof.
  assert (unique_ids (customers Demo.world)) as Hnd.
  { unfold unique_ids. simpl. repeat constructor.
    - intros Hin. apply list_elem_of_singleton in Hin. discriminate.
    - apply not_elem_of_nil. }
  destruct (methods_keep_ids_unique Demo.env Demo.world Hnd)
    as (Hcreate & _ & _ & _ & _ & Hmerge & _).
  split_and!; [exact Hnd|apply Hmerge|apply Hcreate].
Defined.

(** ** What the survivor of a merge does not inherit *)

(** X17. Apart from [integrationId], [tagIds], [companyIds], [emails] and
    [phones] (and the cleaned custom fields), the survivor of a successful
    merge has the attributes of the supplied fields and nothing of the merged
    records: a name, a primary email or phone, an owner, twitter or facebook
    data that only an input record had is not carried over, and no owner is
    defaulted. *)
Theorem mergeCustomers_survivor_attributes env customerIds customerFields w c w' :
  mergeCustomers env customerIds customerFields w = (Ok c, w') →
  set_integrationId None
    (set_customFieldsData None (with_merged (data c) [] [] [] []))
  = set_integrationId None
      (set_customFieldsData None (with_merged customerFields [] [] [] []))
  ∧ primaryEmail (data c) = primaryEmail customerFields
  ∧ primaryPhone (data c) = primaryPhone customerFields
  ∧ ownerId (data c) = ownerId customerFields
  ∧ firstName (data c) = firstName customerFields
  ∧ twitterData (data c) = twitterData customerFields
  ∧ facebookData (data c) = facebookData customerFields.
Proof.
  intros Hm. apply mergeCustomers_Ok_inv in Hm as (_ & Hdata & _).
  assert (∀ ids st cs,
    set_integrationId None (m_customerFields (fst (merge_fold ids st cs)))
    = set_integrationId None (m_customerFields st)) as Hfields.
  { clear. induction ids as [|id ids IH]; intros st cs; simpl; [done|].
    destruct (lookup_customer id cs); by rewrite IH. }
  specialize (Hfields customerIds (merge_init customerFields) (customers w)).
  simpl in Hfields. rewrite Hdata. clear Hdata.
  destruct (m_customerFields (fst (merge_fold customerIds
              (merge_init customerFields) (customers w)))).
  destruct customerFields. simpl in *. by simplify_eq.
Qed.

Lemma mergeCustomers_survivor_attributes_witness :
  ∃ c w',
    mergeCustomers Demo.env ["A"; "B"] empty_doc Demo.world = (Ok c, w')
    ∧ primaryEmail (data Demo.A) = Some "a@x.io"
    ∧ primaryEmail (data c) = None
    ∧ firstName (data c) = None.
Proof.
  destruct (mergeCustomers Demo.env ["A"; "B"] empty_doc Demo.world)
    as [[c|e] w'] eqn:H; [|vm_compute in H; discriminate].
  exists c, w'. split; [reflexivity|].
  destruct (mergeCustomers_survivor_attributes _ _ _ _ _ _ H)
    as (_ & He & _ & _ & Hf & _).
  by rewrite He, Hf.
Defined.

(** ** Round trips *)

Lemma filter_out_last cs d :
  (_id d ∉ _id <$> cs) → filter (λ x, _id x ≠ _id d) (cs ++ [d]) = cs.
Proof.
  intros Hd. rewrite filter_app, filter_cons, decide_False by (by intros ?).
  rewrite filter_nil, app_nil_r.
  induction cs as [|c cs IH]; [done|].
  rewrite filter_cons, decide_True.
  - f_equal. apply IH. intros Hin. apply Hd. simpl. by right.
  - intros Heq. apply Hd. simpl. rewrite Heq. left.
Qed.

(** X18. Creating a customer and then removing it by the identifier
    [createCustomer] returned gives back the collection as it was before the
    creation. *)
Theorem createCustomer_then_removeCustomer env env' doc user w d w' w'' :
  createCustomer env doc user w = (Ok d, w') →
  removeCustomer env' (_id d) w' = (Ok tt, w'') →
  customers w'' = customers w.
Proof.
  intros Hcreate Hremove.
  pose proof (createCustomer_collection env doc user w) as Hc.
  rewrite Hcreate in Hc. simpl in Hc. destruct Hc as [Hcs Hfresh].
  pose proof (removeCustomer_collection env' (_id d) w') as Hr.
  rewrite Hremove in Hr. simpl in Hr.
  rewrite Hr, Hcs. by apply filter_out_last.
Qed.

Lemma createCustomer_then_removeCustomer_witness :
  ∃ d w' w'',
    createCustomer Demo.env Demo.bob (Some Demo.user) Demo.empty_world = (Ok d, w')
    ∧ removeCustomer Demo.env (_id d) w' = (Ok tt, w'')
    ∧ customers w'' = customers Demo.empty_world.
Proof.
  destruct (createCustomer Demo.env Demo.bob (Some Demo.user) Demo.empty_world)
    as [[d|e] w'] eqn:Hc; [|vm_compute in Hc; discriminate].
  destruct (removeCustomer Demo.env (_id d) w') as [[[]|e] w''] eqn:Hr.
  - exists d, w', w''. split_and!; [done..|].
    exact (createCustomer_then_removeCustomer _ _ _ _ _ _ _ _ Hc Hr).
  - exfalso. vm_compute in Hc. injection Hc as <- <-.
    vm_compute in Hr. discriminate.
Defined.

Lemma dollar_set_idem doc old :
  dollar_set doc (dollar_set doc old) = dollar_set doc old.
Proof.
  destruct doc, old. unfold dollar_set. simpl.
  f_equal; by match goal with |- from_option _ _ ?o = _ => destruct o end.
Qed.

(** X19. Updating a customer twice with the same fields (no custom fields)
    stores the same attributes as updating it once; only [modifiedAt] is
    stamped again. *)
Theorem updateCustomer_twice env env' id doc w r1 w1 r2 w2 :
  customFieldsData doc = None →
  updateCustomer env id doc w = (Ok r1, w1) →
  updateCustomer env' id doc w1 = (Ok r2, w2) →
  data <$> r2 = data <$> r1
  ∧ (_id <$> r2) = (_id <$> r1)
  ∧ (createdAt <$> r2) = (createdAt <$> r1)
  ∧ (data <$> customers w2) = (data <$> customers w1).
Proof.
  intros Hcf H1 H2.
  assert (∀ env0 w0 r0 w0',
    updateCustomer env0 id doc w0 = (Ok r0, w0') →
    ∃ t, customers w0'
         = update_first id
             (λ d, {| _id := _id d; createdAt := createdAt d;
                      modifiedAt := Some t;
                      data := dollar_set doc (data d) |}) (customers w0)
         ∧ r0 = lookup_customer id (customers w0')) as Hinv.
  { intros env0 w0 r0 w0' H.
    destruct (checkDuplication (as_customerFields doc) (Some (IdOne id)) w0)
      as [[[]|e] w01] eqn:Hchk.
    - rewrite (updateCustomer_run env0 id doc w0 w01 Hchk) in H.
      cbv zeta in H. rewrite Hcf in H. injection H as <- <-. simpl. eauto.
    - unfold updateCustomer in H. revert H.
      unfold mbind at 1, M_bind at 1, bind at 1. by rewrite Hchk. }
  destruct (Hinv _ _ _ _ H1) as (t1 & Hcs1 & ->).
  destruct (Hinv _ _ _ _ H2) as (t2 & Hcs2 & ->).
  pose proof (dollar_set_idem doc) as Hidem.
  rewrite Hcs2, Hcs1. clear -Hidem.
  induction (customers w) as [|d cs IH]; [done|]. simpl.
  destruct (decide (_id d = id)) as [Hd|Hd]; simpl.
  - rewrite decide_True by done. rewrite !lookup_customer_cons. simpl.
    rewrite !decide_True by done. simpl. by rewrite Hidem.
  - rewrite decide_False by done. rewrite !lookup_customer_cons.
    rewrite !decide_False by done. destruct IH as (I1 & I2 & I3 & I4).
    split_and!; [done..|]. simpl. by f_equal.
Qed.

Lemma updateCustomer_twice_witness :
  ∃ r1 w1 r2 w2,
    updateCustomer Demo.env "A" (Outage.only_firstName "Anna") Demo.world
    = (Ok r1, w1)
    ∧ updateCustomer Demo.env "A" (Outage.only_firstName "Anna") w1 = (Ok r2, w2)
    ∧ data <$> r2 = data <$> r1.
Proof.
  destruct (updateCustomer Demo.env "A" (Outage.only_firstName "Anna") Demo.world)
    as [[r1|e] w1] eqn:H1; [|vm_compute in H1; discriminate].
  destruct (updateCustomer Demo.env "A" (Outage.only_firstName "Anna") w1)
    as [[r2|e] w2] eqn:H2.
  - exists r1, w1, r2, w2. split_and!; [done..|].
    exact (proj1 (updateCustomer_twice Demo.env Demo.env "A"
                    (Outage.only_firstName "Anna") _ _ _ _ _ eq_refl H1 H2)).
  - exfalso. vm_compute in H1. injection H1 as <- <-.
    vm_compute in H2. discriminate.
Defined.
